(** * The store of cmd/db.go: schema, file records and service records

    A shallow embedding of [cmd/db.go]: the three tables declared by
    [createTables], and the operations [getFileContent], [addFile],
    [updateFile] and [configureServices] over an explicit store.

    What db.go reaches through libraries is modelled by its documented
    meaning: SQLite for the DDL of [createTables] (rowid allocation, UNIQUE,
    foreign keys and their ON DELETE actions, which SQLite enforces only on
    a connection with [PRAGMA foreign_keys = ON]; the setting is a parameter
    of the operations named [_on]), the
    sqlboiler methods [Insert], [Update] and [AddServices], the file system
    behind [os.Open] and [ioutil.ReadAll], and the TOML codec, which is an
    interface here because the type [ServiceConfig] it works on is declared
    outside db.go. *)

From Stdlib Require Import ZArith String Ascii.
From stdpp Require Import base option list gmap strings fin_maps.

Local Open Scope string_scope.

(** ** Errors and results *)

(** The [error] values the calls of db.go can return. *)
Inductive error : Type :=
  | PathError (op path : string)        (* os.Open *)
  | ReadError (msg : string)            (* ioutil.ReadAll *)
  | ParseError (msg : string)           (* toml.Decode *)
  | EncodeError (msg : string)          (* toml Encoder.Encode *)
  | UniqueViolation (column : string)   (* UNIQUE constraint failed: <column> *)
  | ForeignKeyViolation.                (* FOREIGN KEY constraint failed *)

Inductive result (A : Type) : Type :=
  | Ok (a : A)
  | Err (e : error).
Arguments Ok {A} a.
Arguments Err {A} e.

(** ** Constants of db.go *)

Definition stateNotConfigured : string := "not configured".
Definition stateToConfigureHttps : string := "to configure https".
Definition stateToDisableHttp : string := "to disable http".
Definition stateConfigured : string := "configured".

(** ** Rows

    One record per table of [createTables], with the field names sqlboiler
    derives from the columns. Timestamps ([time.Time]) are instants in [Z];
    a nullable reference is an [option]. *)

Module File.
Record t : Type := mk {
  ID : Z;
  Path : string;
  Name : string;
  Content : string;
  IsConfigured : bool;
  LastModified : Z
}.
End File.

Module Service.
Record t : Type := mk {
  ID : Z;
  FileID : option Z;
  Name : string;
  Content : string;
  State : string;
  LastModified : Z
}.
End Service.

Module NginxConfigFile.
Record t : Type := mk {
  ID : Z;
  ServiceID : option Z;
  Type_ : string;
  Path : string;
  LastModified : Z
}.
End NginxConfigFile.

(** Modelled from the spec: the type [FilePathAndInfo] is used by db.go but
    declared elsewhere. db.go reads its field [Path] and its methods [Name()]
    and [ModTime()]; the spec's scan event is [{path, name, modTime,
    contentReader}]. The content is read from the file system by path. *)
Record FilePathAndInfo : Type := {
  Path : string;
  Name : string;
  ModTime : Z
}.

(** ** The schema of [createTables] *)

(** The referential actions of SQL. *)
Inductive action : Type := NoAction | Restrict | SetNull | SetDefault | Cascade.

(** [file_id INTEGER REFERENCES files (id) ON DELETE CASCADE ON UPDATE CASCADE] *)
Definition services_file_id_on_delete : action := Cascade.
Definition services_file_id_on_update : action := Cascade.

(** [service_id INTEGER REFERENCES services (id) ON DELETE SET NULL ON UPDATE CASCADE] *)
Definition nginx_config_files_service_id_on_delete : action := SetNull.
Definition nginx_config_files_service_id_on_update : action := Cascade.

(** The three tables, each keyed by its [INTEGER NOT NULL PRIMARY KEY]. *)
Record DB : Type := {
  files : gmap Z File.t;
  services : gmap Z Service.t;
  nginx_config_files : gmap Z NginxConfigFile.t
}.

Definition empty_db : DB :=
  {| files := ∅; services := ∅; nginx_config_files := ∅ |}.

(** What a call of db.go can change: the database behind [db *sql.DB] and
    the lines written by [log.Printf]. *)
Record World : Type := {
  db : DB;
  logged : list string
}.

(** ** A state and error monad for the Go calls

    A Go function [f(db, ...) (A, error)] is a [Go A]: it maps the world to
    the world it leaves and its result. The world is kept on an error: db.go
    runs its statements outside a transaction, so what was written before a
    failure stays written. *)

Definition Go (A : Type) : Type := World → World * result A.

Definition ret {A} (a : A) : Go A := λ w, (w, Ok a).

Definition bind {A B} (m : Go A) (k : A → Go B) : Go B := λ w,
  match m w with
  | (w', Ok a) => k a w'
  | (w', Err e) => (w', Err e)
  end.

Definition fail {A} (e : error) : Go A := λ w, (w, Err e).

Definition lift {A} (r : result A) : Go A := λ w, (w, r).

Notation "x <- m ;; k" := (bind m (λ x, k))
  (at level 20, m at level 99, k at level 200, only parsing).
Notation "m ;;; k" := (bind m (λ _, k))
  (at level 100, k at level 200, right associativity, only parsing).

(** [for _, x := range xs { body(x) }] with an early [return err]. *)
Fixpoint for_range {A} (xs : list A) (body : A → Go unit) : Go unit :=
  match xs with
  | [] => ret tt
  | x :: rest => body x ;;; for_range rest body
  end.

(** [log.Printf] *)
Definition log_Printf (line : string) : Go unit := λ w,
  ({| db := db w; logged := logged w ++ [line] |}, Ok tt).

(** ** SQLite: rowids and the constraints of the schema *)

(** The rowid SQLite gives a row inserted without an id: one more than the
    largest in the table, 1 in an empty table. *)
Definition next_rowid {A} (t : gmap Z A) : Z :=
  match (map_to_list t).*1 with
  | [] => 1
  | k :: ks => (foldr Z.max k ks + 1)%Z
  end.

(** [path TEXT NOT NULL UNIQUE] on [files]: is [p] the path of a row other
    than [except]? *)
Definition path_in_use (t : gmap Z File.t) (except : option Z) (p : string) : bool :=
  bool_decide (map_Exists (λ i f, File.Path f = p ∧ Some i ≠ except) t).

(** [INSERT INTO files]. With [boil.Infer] a zero [ID] is left out of the
    statement and SQLite allocates the rowid; a non-zero one is inserted as
    given. [is_configured] has the default FALSE, which is also the zero
    value the statement leaves out. The returned record carries the id. *)
Definition File_Insert (o : File.t) : Go File.t := λ w,
  let t := files (db w) in
  let id := if decide (File.ID o = 0%Z) then next_rowid t else File.ID o in
  if decide (is_Some (t !! id)) then (w, Err (UniqueViolation "files.id"))
  else if path_in_use t None (File.Path o) then (w, Err (UniqueViolation "files.path"))
  else
    let row := File.mk id (File.Path o) (File.Name o) (File.Content o)
                       (File.IsConfigured o) (File.LastModified o) in
    ({| db := {| files := <[id := row]> t;
                 services := services (db w);
                 nginx_config_files := nginx_config_files (db w) |};
        logged := logged w |}, Ok row).

(** [UPDATE files SET path, name, content, is_configured, last_modified
    WHERE id = o.ID]: every column but the key; the result is the number of
    rows affected, 0 without an error when no row has that id. *)
Definition File_Update (o : File.t) : Go Z := λ w,
  let t := files (db w) in
  match t !! File.ID o with
  | None => (w, Ok 0%Z)
  | Some _ =>
      if path_in_use t (Some (File.ID o)) (File.Path o)
      then (w, Err (UniqueViolation "files.path"))
      else
        ({| db := {| files := <[File.ID o := o]> t;
                     services := services (db w);
                     nginx_config_files := nginx_config_files (db w) |};
            logged := logged w |}, Ok 1%Z)
  end.

(** [INSERT INTO services]: the rowid as for files; a non-null [file_id]
    must be the id of a row of [files]. This is the insert on a connection
    that enforces foreign keys; [Service_Insert_on] gives both settings. *)
Definition Service_Insert (o : Service.t) : Go Service.t := λ w,
  let t := services (db w) in
  let id := if decide (Service.ID o = 0%Z) then next_rowid t else Service.ID o in
  if decide (is_Some (t !! id)) then (w, Err (UniqueViolation "services.id"))
  else
    match Service.FileID o with
    | Some fid =>
        if decide (is_Some (files (db w) !! fid)) then
          let row := Service.mk id (Some fid) (Service.Name o) (Service.Content o)
                                (Service.State o) (Service.LastModified o) in
          ({| db := {| files := files (db w);
                       services := <[id := row]> t;
                       nginx_config_files := nginx_config_files (db w) |};
              logged := logged w |}, Ok row)
        else (w, Err ForeignKeyViolation)
    | None =>
        let row := Service.mk id None (Service.Name o) (Service.Content o)
                              (Service.State o) (Service.LastModified o) in
        ({| db := {| files := files (db w);
                     services := <[id := row]> t;
                     nginx_config_files := nginx_config_files (db w) |};
            logged := logged w |}, Ok row)
    end.

(** [file.AddServices(ctx, db, insert, related...)] with [insert = true]:
    each related service gets [FileID = file.ID] and is inserted. *)
Fixpoint File_AddServices (o : File.t) (related : list Service.t) : Go unit :=
  match related with
  | [] => ret tt
  | rel :: rest =>
      let rel' := Service.mk (Service.ID rel) (Some (File.ID o)) (Service.Name rel)
                             (Service.Content rel) (Service.State rel)
                             (Service.LastModified rel) in
      Service_Insert rel' ;;;
      File_AddServices o rest
  end.

(** ** SQLite: deleting rows under the declared foreign keys

    The definitions of this part are the DELETE on a connection that
    enforces foreign keys. db.go receives its handle and does not set the
    pragma itself; [delete_file_on] and [delete_service_on] give both
    settings. *)

(** Does the reference [r] point to one of the rows [gone]? *)
Definition refers_to (gone : gset Z) (r : option Z) : bool :=
  match r with
  | Some p => bool_decide (p ∈ gone)
  | None => false
  end.

(** The effect on a child table of deleting the parent rows [gone], under
    the ON DELETE action [act] of the child's column [ref]: the child table
    that is left and the ids of the child rows deleted with their parents.
    The columns have no DEFAULT, so SET DEFAULT stores NULL as well. *)
Definition on_delete {R} (act : action) (ref : R → option Z) (set_null : R → R)
    (gone : gset Z) (child : gmap Z R) : result (gmap Z R * gset Z) :=
  let hit := filter (λ kr, refers_to gone (ref kr.2) = true) child in
  match act with
  | Cascade =>
      Ok (filter (λ kr, refers_to gone (ref kr.2) = false) child, dom hit)
  | SetNull | SetDefault =>
      Ok ((λ r, if refers_to gone (ref r) then set_null r else r) <$> child, ∅)
  | NoAction | Restrict =>
      if decide (hit = ∅) then Ok (child, ∅) else Err ForeignKeyViolation
  end.

Definition null_file_id (s : Service.t) : Service.t :=
  Service.mk (Service.ID s) None (Service.Name s) (Service.Content s)
             (Service.State s) (Service.LastModified s).

Definition null_service_id (a : NginxConfigFile.t) : NginxConfigFile.t :=
  NginxConfigFile.mk (NginxConfigFile.ID a) None (NginxConfigFile.Type_ a)
                     (NginxConfigFile.Path a) (NginxConfigFile.LastModified a).

(** [DELETE FROM services WHERE id IN gone], with the action declared on
    [nginx_config_files.service_id]. *)
Definition delete_services (gone : gset Z) (d : DB) : result DB :=
  match on_delete nginx_config_files_service_id_on_delete
                  NginxConfigFile.ServiceID null_service_id gone
                  (nginx_config_files d) with
  | Err e => Err e
  | Ok (artifacts, _) =>
      Ok {| files := files d;
            services := filter (λ kr, kr.1 ∉ gone) (services d);
            nginx_config_files := artifacts |}
  end.

(** [DELETE FROM files WHERE id IN gone], with the action declared on
    [services.file_id]; the services deleted with their file are deleted
    as any service is, with the action on their artifacts. *)
Definition delete_files (gone : gset Z) (d : DB) : result DB :=
  match on_delete services_file_id_on_delete
                  Service.FileID null_file_id gone (services d) with
  | Err e => Err e
  | Ok (rest, gone_services) =>
      delete_services gone_services
        {| files := filter (λ kr, kr.1 ∉ gone) (files d);
           services := rest;
           nginx_config_files := nginx_config_files d |}
  end.

(** [DELETE FROM files WHERE id = ?] and [DELETE FROM services WHERE id = ?].
    db.go issues neither; what they do to the other tables is fixed by the
    schema it creates. *)
Definition delete_file (id : Z) (d : DB) : result DB :=
  if decide (is_Some (files d !! id)) then delete_files {[ id ]} d else Ok d.

Definition delete_service (id : Z) (d : DB) : result DB :=
  if decide (is_Some (services d !! id)) then delete_services {[ id ]} d else Ok d.

(** ** The file system and [getFileContent] *)

(** What [os.Open] and [ioutil.ReadAll] answer at the time of one call:
    a handle or an error, and the bytes read with the error that ended the
    read, if any. *)
Record FileSystem : Type := {
  os_Open : string → result Z;
  ioutil_ReadAll : Z → string * option error
}.

Definition getFileContent (fs : FileSystem) (path : string) : string * option error :=
  match os_Open fs path with
  | Err err => ("", Some err)
  | Ok file =>
      match ioutil_ReadAll fs file with
      | (data, Some err) => (data, Some err)
      | (data, None) => (data, None)
      end
  end.

(** ** [filepath.Ext] and [strings.TrimSuffix] *)

Definition newline : string := String (ascii_of_nat 10) "".

Fixpoint has_separator (s : string) : bool :=
  match s with
  | EmptyString => false
  | String c rest => Ascii.eqb c "/" || has_separator rest
  end.

(** The suffix from the last dot of the last element of [path]; empty when
    that element has no dot. *)
Fixpoint Ext (path : string) : string :=
  match path with
  | EmptyString => ""
  | String c rest =>
      match Ext rest with
      | EmptyString =>
          if has_separator rest then ""
          else if Ascii.eqb c "." then path else ""
      | e => e
      end
  end.

Definition HasSuffix (s suffix : string) : bool :=
  (String.length suffix <=? String.length s)%nat
  && String.eqb (substring (String.length s - String.length suffix)
                           (String.length suffix) s) suffix.

Definition TrimSuffix (s suffix : string) : string :=
  if HasSuffix s suffix
  then substring 0 (String.length s - String.length suffix) s
  else s.

(** ** The TOML codec

    [ServiceConfig] is declared outside db.go, so the codec is an interface:
    [toml.Decode(content, &configs)] into a [map[string]ServiceConfig],
    [Encoder.Encode(config)] as the text it leaves in the buffer together
    with the error it returns, and the order in which [range] visits a Go
    map, which is some enumeration of its entries. *)
Class TomlCodec (ServiceConfig : Type) : Type := {
  toml_Decode : string → result (gmap string ServiceConfig);
  toml_Encode : ServiceConfig → string * option error;
  range_order : gmap string ServiceConfig → list (string * ServiceConfig);
  range_order_perm : ∀ m, range_order m ≡ₚ map_to_list m
}.

(** ** The operations of db.go *)

Definition addFile (fs : FileSystem) (file : FilePathAndInfo) : Go unit :=
  match getFileContent fs (Path file) with
  | (_, Some err) => fail err
  | (content, None) =>
      let fModel :=
        {| File.ID := 0;
           File.Name := TrimSuffix (Name file) (Ext (Name file));
           File.Path := Path file;
           File.Content := content;
           File.LastModified := ModTime file;
           File.IsConfigured := false |} in
      File_Insert fModel ;;;
      log_Printf ("ADDED: " ++ Path file ++ newline)
  end.

(** [oldFile] is a pointer in db.go: the first component is the record it
    points to when the call returns, the second the call on the world. *)
Definition updateFile (fs : FileSystem) (oldFile : File.t) (file : FilePathAndInfo)
    : File.t * Go unit :=
  match getFileContent fs (Path file) with
  | (_, Some err) => (oldFile, fail err)
  | (content, None) =>
      let oldFile' :=
        {| File.ID := File.ID oldFile;
           File.Path := File.Path oldFile;
           File.Name := File.Name oldFile;
           File.Content := content;
           File.IsConfigured := false;
           File.LastModified := ModTime file |} in
      (oldFile',
       File_Update oldFile' ;;;
       log_Printf ("UPDATED: " ++ Path file ++ newline))
  end.

Section ConfigureServices.
Context {ServiceConfig : Type} {codec : TomlCodec ServiceConfig}.

(** The body of the [range] loop for one entry of [configs]. The error
    returned by [encoder.Encode(config)] is not bound in db.go: the
    service takes whatever the encoder left in the buffer. *)
Definition configure_one (file : File.t) (entry : string * ServiceConfig) : Go unit :=
  let '(key, config) := entry in
  let '(b, _) := toml_Encode config in
  let service :=
    {| Service.ID := 0;
       Service.FileID := None;
       Service.Name := key;
       Service.Content := b;
       Service.State := stateNotConfigured;
       Service.LastModified := File.LastModified file |} in
  File_AddServices file [service].

Definition configureServices (file : File.t) : Go unit :=
  configs <- lift (toml_Decode (File.Content file)) ;;
  for_range (range_order configs) (configure_one file) ;;;
  log_Printf ("ADDED SERVICES FOR: " ++ File.Path file ++ newline).
End ConfigureServices.

(** ** Notions used to state the properties *)

(** The paths of a files table are pairwise different, as the UNIQUE index
    on [files.path] keeps them. *)
Definition unique_paths (t : gmap Z File.t) : Prop :=
  ∀ i j f g, t !! i = Some f → t !! j = Some g → File.Path f = File.Path g → i = j.

(** The world with another [files] table and one more line logged. *)
Definition set_files (t : gmap Z File.t) (line : string) (w : World) : World :=
  {| db := {| files := t;
              services := services (db w);
              nginx_config_files := nginx_config_files (db w) |};
     logged := logged w ++ [line] |}.

(** The row [addFile] stores under [id] for a scanned file. *)
Definition file_row (id : Z) (file : FilePathAndInfo) (content : string) : File.t :=
  {| File.ID := id;
     File.Path := Path file;
     File.Name := TrimSuffix (Name file) (Ext (Name file));
     File.Content := content;
     File.IsConfigured := false;
     File.LastModified := ModTime file |}.

(** The record [updateFile] leaves behind [oldFile] and writes to its row. *)
Definition updated_file (oldFile : File.t) (file : FilePathAndInfo) (content : string)
    : File.t :=
  {| File.ID := File.ID oldFile;
     File.Path := File.Path oldFile;
     File.Name := File.Name oldFile;
     File.Content := content;
     File.IsConfigured := false;
     File.LastModified := ModTime file |}.

(** The world with another [services] table, and with one more row in it. *)
Definition set_services (t : gmap Z Service.t) (w : World) : World :=
  {| db := {| files := files (db w);
              services := t;
              nginx_config_files := nginx_config_files (db w) |};
     logged := logged w |}.

Definition put_service (id : Z) (row : Service.t) (w : World) : World :=
  set_services (<[id := row]> (services (db w))) w.

Section ServiceRow.
Context {ServiceConfig : Type} {codec : TomlCodec ServiceConfig}.

(** The row [configureServices] stores under [id] for one decoded entry
    of [file]. *)
Definition service_row (file : File.t) (id : Z) (entry : string * ServiceConfig)
    : Service.t :=
  {| Service.ID := id;
     Service.FileID := Some (File.ID file);
     Service.Name := entry.1;
     Service.Content := (toml_Encode entry.2).1;
     Service.State := stateNotConfigured;
     Service.LastModified := File.LastModified file |}.
End ServiceRow.

(** ** A codec to run the model on

    Definitions that are plain strings, a few known file contents, and an
    encoder that rejects the definition ["bad"] after writing nothing. *)
Module Fixture.
Definition decode (content : string) : result (gmap string string) :=
  if String.eqb content "web = up" then Ok {[ "web" := "up" ]}
  else if String.eqb content "a = 1, b = 2" then Ok {[ "a" := "1"; "b" := "2" ]}
  else if String.eqb content "web = bad" then Ok {[ "web" := "bad" ]}
  else Err (ParseError "expected key = value").

Definition encode (config : string) : string * option error :=
  if String.eqb config "bad" then ("", Some (EncodeError "unsupported value"))
  else (config, None).

#[export] Instance codec : TomlCodec string := {|
  toml_Decode := decode;
  toml_Encode := encode;
  range_order := map_to_list;
  range_order_perm := λ m, reflexivity (map_to_list m)
|}.

(** A disk with one readable file. *)
Definition disk (path content : string) : FileSystem := {|
  os_Open := λ p, if String.eqb p path then Ok 3%Z else Err (PathError "open" p);
  ioutil_ReadAll := λ _, (content, None)
|}.

Definition scan (path : string) (mtime : Z) : FilePathAndInfo :=
  {| Path := path; Name := "sites.toml"; ModTime := mtime |}.

Definition start : World := {| db := empty_db; logged := [] |}.

Definition sites : string := "/etc/sites.toml".

(** The world after the first scan of [sites] with the given content, and
    the File record stored by that scan. *)
Definition added (content : string) : World :=
  (addFile (disk sites content) (scan sites 10) start).1.

Definition stored (content : string) : File.t :=
  {| File.ID := 1;
     File.Path := sites;
     File.Name := "sites";
     File.Content := content;
     File.IsConfigured := false;
     File.LastModified := 10 |}.

(** A database with one file, two services decoded from it and an
    artifact of each. *)
Definition service (id : Z) (name : string) : Service.t :=
  {| Service.ID := id;
     Service.FileID := Some 1%Z;
     Service.Name := name;
     Service.Content := "up";
     Service.State := stateConfigured;
     Service.LastModified := 10 |}.

Definition artifact (id service_id : Z) (path : string) : NginxConfigFile.t :=
  {| NginxConfigFile.ID := id;
     NginxConfigFile.ServiceID := Some service_id;
     NginxConfigFile.Type_ := "https";
     NginxConfigFile.Path := path;
     NginxConfigFile.LastModified := 11 |}.

Definition populated : DB :=
  {| files := {[ 1%Z := stored "web = up" ]};
     services := {[ 1%Z := service 1 "web"; 2%Z := service 2 "api" ]};
     nginx_config_files :=
       {[ 1%Z := artifact 1 1 "/etc/nginx/web.conf";
          2%Z := artifact 2 2 "/etc/nginx/api.conf" ]} |}.
End Fixture.

(** ** [createTables]

    [createTables] talks to the database through [db.Begin], [tx.Exec] and
    [tx.Commit]. What these answer is the driver's business; what
    [createTables] decides is which calls it makes, in which order, and
    which error it returns. It is modelled by the calls it issues. *)

Inductive call : Type :=
  | Begin                   (* db.Begin() *)
  | Exec (table : string)   (* tx.Exec of CREATE TABLE IF NOT EXISTS table *)
  | Commit                  (* tx.Commit() *)
  | Rollback.               (* tx.Rollback() *)

(** The answers of the driver during one run: the error of each call, if
    any. Every statement is executed at most once in a run, so the answer
    to [tx.Exec] is given per table. *)
Record Driver : Type := {
  sql_Begin : option error;
  sql_Exec : string → option error;
  sql_Commit : option error
}.

Definition createTables (drv : Driver) : list call * option error :=
  match sql_Begin drv with
  | Some err => ([Begin], Some err)
  | None =>
  match sql_Exec drv "files" with
  | Some err => ([Begin; Exec "files"], Some err)
  | None =>
  match sql_Exec drv "services" with
  | Some err => ([Begin; Exec "files"; Exec "services"], Some err)
  | None =>
  match sql_Exec drv "nginx_config_files" with
  | Some err =>
      ([Begin; Exec "files"; Exec "services"; Exec "nginx_config_files"], Some err)
  | None =>
  match sql_Commit drv with
  | Some err =>
      ([Begin; Exec "files"; Exec "services"; Exec "nginx_config_files"; Commit],
       Some err)
  | None =>
      ([Begin; Exec "files"; Exec "services"; Exec "nginx_config_files"; Commit],
       None)
  end end end end end.

(** The answer of the driver to one call. [createTables] has no
    [tx.Rollback()]; a driver is not asked about it. *)
Definition answer (drv : Driver) (c : call) : option error :=
  match c with
  | Begin => sql_Begin drv
  | Exec table => sql_Exec drv table
  | Commit => sql_Commit drv
  | Rollback => None
  end.

(** The calls of a run in which nothing fails. *)
Definition all_calls : list call :=
  [Begin; Exec "files"; Exec "services"; Exec "nginx_config_files"; Commit].

(** ** Consistency of the store *)

(** Every row is stored under the id it carries. *)
Definition ids_match (d : DB) : Prop :=
  (∀ i f, files d !! i = Some f → File.ID f = i)
  ∧ (∀ i s, services d !! i = Some s → Service.ID s = i)
  ∧ (∀ i a, nginx_config_files d !! i = Some a → NginxConfigFile.ID a = i).

(** Every non-null reference points to a row of the referenced table. *)
Definition referential_integrity (d : DB) : Prop :=
  (∀ i s fid, services d !! i = Some s → Service.FileID s = Some fid →
     is_Some (files d !! fid))
  ∧ (∀ i a sid, nginx_config_files d !! i = Some a →
       NginxConfigFile.ServiceID a = Some sid → is_Some (services d !! sid)).

Definition consistent (d : DB) : Prop :=
  unique_paths (files d) ∧ ids_match d ∧ referential_integrity d.

Section Steps.
Context {ServiceConfig : Type} {codec : TomlCodec ServiceConfig}.

(** One operation on the world: a call of db.go, whatever it returns, or
    the deletion of a file or of a service. *)
Inductive step : World → World → Prop :=
  | step_addFile fs file w w' r :
      addFile fs file w = (w', r) → step w w'
  | step_updateFile fs oldFile file w w' r :
      (updateFile fs oldFile file).2 w = (w', r) → step w w'
  | step_configureServices file w w' r :
      configureServices file w = (w', r) → step w w'
  | step_delete_file id w d' :
      delete_file id (db w) = Ok d' → step w {| db := d'; logged := logged w |}
  | step_delete_service id w d' :
      delete_service id (db w) = Ok d' → step w {| db := d'; logged := logged w |}.
End Steps.

(** The line each operation logs when it returns no error. *)
Definition logged_on_success {A} (line : string) (r : result A) : list string :=
  match r with
  | Ok _ => [line]
  | Err _ => []
  end.

(** No dot and no separator in a string. *)
Fixpoint plain (s : string) : bool :=
  match s with
  | EmptyString => true
  | String c rest => negb (Ascii.eqb c ".") && negb (Ascii.eqb c "/") && plain rest
  end.

(** ** More inputs to run the model on *)
Module Scenario.
(** A driver on which every call succeeds but the given one. *)
Definition failing_at (c : call) (err : error) : Driver := {|
  sql_Begin := match c with Begin => Some err | _ => None end;
  sql_Exec := λ table,
    match c with
    | Exec t => if String.eqb t table then Some err else None
    | _ => None
    end;
  sql_Commit := match c with Commit => Some err | _ => None end
|}.

Definition healthy : Driver :=
  {| sql_Begin := None; sql_Exec := λ _, None; sql_Commit := None |}.

Definition locked : error := ReadError "database is locked".

(** A disk on which nothing can be opened. *)
Definition no_disk : FileSystem := {|
  os_Open := λ p, Err (PathError "open" p);
  ioutil_ReadAll := λ _, ("", None)
|}.

(** A File record whose row is not in the store. *)
Definition stranger (content : string) : File.t :=
  {| File.ID := 7;
     File.Path := "/etc/other.toml";
     File.Name := "other";
     File.Content := content;
     File.IsConfigured := false;
     File.LastModified := 5 |}.

Definition populated_world : World :=
  {| db := Fixture.populated; logged := [] |}.

(** The world after the scans of two files, and a record for the second
    that carries the path of the first. *)
Definition two_files : World :=
  (addFile (Fixture.disk "/etc/other.toml" "a = 1, b = 2")
           {| Path := "/etc/other.toml"; Name := "other.toml"; ModTime := 11 |}
           (Fixture.added "web = up")).1.

Definition mislabelled : File.t :=
  {| File.ID := 2;
     File.Path := Fixture.sites;
     File.Name := "other";
     File.Content := "a = 1, b = 2";
     File.IsConfigured := false;
     File.LastModified := 11 |}.

(** The codec of [Fixture], which also decodes the empty file, to no
    definition at all. *)
Definition decode (content : string) : result (gmap string string) :=
  if String.eqb content "" then Ok ∅ else Fixture.decode content.

#[export] Instance codec : TomlCodec string := {|
  toml_Decode := decode;
  toml_Encode := Fixture.encode;
  range_order := map_to_list;
  range_order_perm := λ m, reflexivity (map_to_list m)
|}.
End Scenario.

(** ** The connection: with and without foreign keys

    SQLite checks the REFERENCES clauses of the schema, and runs their
    ON DELETE actions, only on a connection with [PRAGMA foreign_keys = ON].
    db.go takes the handle [db *sql.DB] as it is given and sets no pragma,
    so the setting is a parameter here. With [true] the operations below
    are the ones defined above; with [false] an INSERT stores any
    [file_id] and a DELETE touches only its own table. *)

Definition Service_Insert_on (foreign_keys : bool) (o : Service.t) : Go Service.t := λ w,
  if foreign_keys then Service_Insert o w
  else
    let t := services (db w) in
    let id := if decide (Service.ID o = 0%Z) then next_rowid t else Service.ID o in
    if decide (is_Some (t !! id)) then (w, Err (UniqueViolation "services.id"))
    else
      let row := Service.mk id (Service.FileID o) (Service.Name o) (Service.Content o)
                            (Service.State o) (Service.LastModified o) in
      ({| db := {| files := files (db w);
                   services := <[id := row]> t;
                   nginx_config_files := nginx_config_files (db w) |};
          logged := logged w |}, Ok row).

Fixpoint File_AddServices_on (foreign_keys : bool) (o : File.t) (related : list Service.t)
    : Go unit :=
  match related with
  | [] => ret tt
  | rel :: rest =>
      let rel' := Service.mk (Service.ID rel) (Some (File.ID o)) (Service.Name rel)
                             (Service.Content rel) (Service.State rel)
                             (Service.LastModified rel) in
      Service_Insert_on foreign_keys rel' ;;;
      File_AddServices_on foreign_keys o rest
  end.

Section ConfigureServicesOn.
Context {ServiceConfig : Type} {codec : TomlCodec ServiceConfig}.

Definition configure_one_on (foreign_keys : bool) (file : File.t)
    (entry : string * ServiceConfig) : Go unit :=
  let '(key, config) := entry in
  let '(b, _) := toml_Encode config in
  let service :=
    {| Service.ID := 0;
       Service.FileID := None;
       Service.Name := key;
       Service.Content := b;
       Service.State := stateNotConfigured;
       Service.LastModified := File.LastModified file |} in
  File_AddServices_on foreign_keys file [service].

Definition configureServices_on (foreign_keys : bool) (file : File.t) : Go unit :=
  configs <- lift (toml_Decode (File.Content file)) ;;
  for_range (range_order configs) (configure_one_on foreign_keys file) ;;;
  log_Printf ("ADDED SERVICES FOR: " ++ File.Path file ++ newline).
End ConfigureServicesOn.

Definition delete_services_on (foreign_keys : bool) (gone : gset Z) (d : DB) : result DB :=
  if foreign_keys then delete_services gone d
  else Ok {| files := files d;
             services := filter (λ kr, kr.1 ∉ gone) (services d);
             nginx_config_files := nginx_config_files d |}.

Definition delete_files_on (foreign_keys : bool) (gone : gset Z) (d : DB) : result DB :=
  if foreign_keys then delete_files gone d
  else Ok {| files := filter (λ kr, kr.1 ∉ gone) (files d);
             services := services d;
             nginx_config_files := nginx_config_files d |}.

Definition delete_file_on (foreign_keys : bool) (id : Z) (d : DB) : result DB :=
  if decide (is_Some (files d !! id)) then delete_files_on foreign_keys {[ id ]} d
  else Ok d.

Definition delete_service_on (foreign_keys : bool) (id : Z) (d : DB) : result DB :=
  if decide (is_Some (services d !! id)) then delete_services_on foreign_keys {[ id ]} d
  else Ok d.

Section StepsOn.
Context {ServiceConfig : Type} {codec : TomlCodec ServiceConfig}.

(** One operation on the world, on a connection with the given setting. *)
Inductive step_on (foreign_keys : bool) : World → World → Prop :=
  | step_on_addFile fs file w w' r :
      addFile fs file w = (w', r) → step_on foreign_keys w w'
  | step_on_updateFile fs oldFile file w w' r :
      (updateFile fs oldFile file).2 w = (w', r) → step_on foreign_keys w w'
  | step_on_configureServices file w w' r :
      configureServices_on foreign_keys file w = (w', r) → step_on foreign_keys w w'
  | step_on_delete_file id w d' :
      delete_file_on foreign_keys id (db w) = Ok d' →
      step_on foreign_keys w {| db := d'; logged := logged w |}
  | step_on_delete_service id w d' :
      delete_service_on foreign_keys id (db w) = Ok d' →
      step_on foreign_keys w {| db := d'; logged := logged w |}.
End StepsOn.


(** What holds of the store on every connection, and what holds of it when
    foreign keys are enforced. *)
Definition consistent_on (foreign_keys : bool) (d : DB) : Prop :=
  unique_paths (files d) ∧ ids_match d
  ∧ (foreign_keys = true → referential_integrity d).

(** ** The pass over one scanned file *)





Section Reconcile.
Context {ServiceConfig : Type} {codec : TomlCodec ServiceConfig}.


End Reconcile.

(** ** A codec on TOML text to run the model on *)
Module Toml.
(** A definition with one key, and file contents that are TOML: a table of
    one or two definitions, a file without definitions, and a truncated
    file. *)
Record ServiceConfig : Type := { tls : bool }.

Definition two_services : string :=
  "web = { tls = true }" ++ newline ++ "api = { tls = false }".

Definition decode (content : string) : result (gmap string ServiceConfig) :=
  if String.eqb content "web = { tls = true }"
  then Ok {[ "web" := {| tls := true |} ]}
  else if String.eqb content "web = { tls = false }"
  then Ok {[ "web" := {| tls := false |} ]}
  else if String.eqb content two_services
  then Ok {[ "web" := {| tls := true |}; "api" := {| tls := false |} ]}
  else if String.eqb content "" then Ok ∅
  else Err (ParseError "expected a table").

Definition encode (config : ServiceConfig) : string * option error :=
  (("tls = " ++ (if tls config then "true" else "false") ++ newline)%string, None).

#[export] Instance codec : TomlCodec ServiceConfig := {|
  toml_Decode := decode;
  toml_Encode := encode;
  range_order := map_to_list;
  range_order_perm := λ m, reflexivity (map_to_list m)
|}.

Definition sites : string := "/etc/sites.toml".

Definition disk (content : string) : FileSystem := {|
  os_Open := λ p, if String.eqb p sites then Ok 3%Z else Err (PathError "open" p);
  ioutil_ReadAll := λ _, (content, None)
|}.

Definition scan (mtime : Z) : FilePathAndInfo :=
  {| Path := sites; Name := "sites.toml"; ModTime := mtime |}.

Definition start : World := {| db := empty_db; logged := [] |}.


(** A File record that has no row in the store. *)
Definition stranger : File.t :=
  {| File.ID := 7;
     File.Path := "/etc/other.toml";
     File.Name := "other";
     File.Content := "web = { tls = true }";
     File.IsConfigured := false;
     File.LastModified := 5 |}.

End Toml.

(** * Properties *)

(** ** Rowids and the UNIQUE index *)

Lemma foldr_max_ge (k : Z) (ks : list Z) (j : Z) :
  j ∈ k :: ks → (j ≤ foldr Z.max k ks)%Z.
Proof.
  induction ks as [|x ks IH]; simpl.
  - intros ->%list_elem_of_singleton. lia.
  - rewrite !elem_of_cons. intros [->|[->|Hj]].
    + assert (k ≤ foldr Z.max k ks)%Z by (apply IH; left). lia.
    + lia.
    + assert (j ≤ foldr Z.max k ks)%Z by (apply IH; by right). lia.
Qed.

Lemma next_rowid_fresh {A} (t : gmap Z A) : t !! next_rowid t = None.
Proof.
  destruct (t !! next_rowid t) as [x|] eqn:Hx; [|done].
  exfalso.
  assert (Hin : next_rowid t ∈ (map_to_list t).*1).
  { apply list_elem_of_fmap. exists (next_rowid t, x).
    split; [done|]. by apply elem_of_map_to_list. }
  unfold next_rowid in Hin.
  destruct ((map_to_list t).*1) as [|k ks] eqn:Hks.
  - by apply elem_of_nil in Hin.
  - apply foldr_max_ge in Hin. lia.
Qed.

Lemma path_in_use_true (t : gmap Z File.t) (except : option Z) (p : string) :
  path_in_use t except p = true ↔
  ∃ i f, t !! i = Some f ∧ File.Path f = p ∧ Some i ≠ except.
Proof.
  unfold path_in_use. rewrite bool_decide_eq_true, map_Exists_lookup. done.
Qed.

Lemma path_in_use_false (t : gmap Z File.t) (except : option Z) (p : string) :
  path_in_use t except p = false ↔
  ∀ i f, t !! i = Some f → File.Path f = p → Some i = except.
Proof.
  rewrite <-not_true_iff_false, path_in_use_true. split.
  - intros Hno i f Hi Hp.
    destruct (decide (Some i = except)) as [|Hne]; [done|].
    destruct Hno. eauto.
  - intros Hall (i & f & Hi & Hp & Hne). eauto.
Qed.

(** ** One step of the loop of [configureServices] *)

Section Loop.
Context {ServiceConfig : Type} {codec : TomlCodec ServiceConfig}.
Implicit Types (file : File.t) (w : World) (entry : string * ServiceConfig).

Lemma configure_one_stored file entry w :
  is_Some (files (db w) !! File.ID file) →
  configure_one file entry w =
    (put_service (next_rowid (services (db w)))
                 (service_row file (next_rowid (services (db w))) entry) w,
     Ok tt).
Proof.
  intros Hfile. destruct entry as [key config].
  unfold configure_one, service_row. simpl.
  destruct (toml_Encode config) as [b oerr]. simpl.
  unfold bind, Service_Insert. simpl.
  rewrite next_rowid_fresh.
  destruct (decide (is_Some None)) as [[? ?]|_]; [done|].
  destruct (decide _) as [|Hno]; [done|]. by destruct Hno.
Qed.

Lemma configure_one_missing file entry w :
  files (db w) !! File.ID file = None →
  configure_one file entry w = (w, Err ForeignKeyViolation).
Proof.
  intros Hfile. destruct entry as [key config].
  unfold configure_one. destruct (toml_Encode config) as [b oerr]. simpl.
  unfold bind, Service_Insert. simpl.
  rewrite next_rowid_fresh.
  destruct (decide (is_Some None)) as [[? ?]|_]; [done|].
  rewrite Hfile.
  destruct (decide _) as [[? ?]|_]; done.
Qed.

Lemma set_services_id w : set_services (services (db w)) w = w.
Proof. by destruct w as [[? ? ?] ?]. Qed.

(** With the file stored, every turn of the loop inserts its row under a
    fresh rowid and the loop runs to its end. *)
Lemma for_range_stored file (entries : list (string * ServiceConfig)) w :
  is_Some (files (db w) !! File.ID file) →
  ∃ new : list (Z * Service.t),
    for_range entries (configure_one file) w =
      (set_services (list_to_map new ∪ services (db w)) w, Ok tt)
    ∧ Forall2 (λ entry ir, ir.2 = service_row file ir.1 entry) entries new
    ∧ NoDup new.*1
    ∧ ∀ i, i ∈ new.*1 → services (db w) !! i = None.
Proof.
  revert w. induction entries as [|entry rest IH]; intros w Hfile.
  - exists []. simpl. rewrite (left_id_L ∅ (∪)), set_services_id.
    split_and!; [done|constructor|constructor|].
    intros i Hi. by apply elem_of_nil in Hi.
  - simpl. unfold bind at 1. rewrite configure_one_stored by done.
    set (id := next_rowid (services (db w))).
    set (row := service_row file id entry).
    destruct (IH (put_service id row w)) as (new & Hrun & Hrows & Hnd & Hfresh);
      [done|].
    assert (Hid : id ∉ new.*1).
    { intros Hin. apply Hfresh in Hin. simpl in Hin.
      by rewrite lookup_insert_eq in Hin. }
    exists ((id, row) :: new). split_and!.
    + rewrite Hrun. f_equal. unfold put_service, set_services. simpl.
      do 2 f_equal.
      rewrite <-insert_union_r by (by apply not_elem_of_list_to_map_1).
      by rewrite insert_union_l.
    + by constructor.
    + simpl. by constructor.
    + simpl. intros i [->|Hi]%elem_of_cons; [apply next_rowid_fresh|].
      apply Hfresh in Hi. simpl in Hi.
      apply lookup_insert_None in Hi. tauto.
Qed.

(** Whatever the outcome, the loop changes nothing but [services], keeps
    the rows that were there, and adds only rows built from the entries. *)
Lemma for_range_frame file (entries : list (string * ServiceConfig)) w w' r :
  for_range entries (configure_one file) w = (w', r) →
  files (db w') = files (db w)
  ∧ nginx_config_files (db w') = nginx_config_files (db w)
  ∧ logged w' = logged w
  ∧ (∀ i s, services (db w) !! i = Some s → services (db w') !! i = Some s)
  ∧ (∀ i s, services (db w') !! i = Some s → services (db w) !! i = None →
       ∃ entry, entry ∈ entries ∧ s = service_row file i entry).
Proof.
  intros Hrun.
  destruct (files (db w) !! File.ID file) as [f|] eqn:Hfile.
  - destruct (for_range_stored file entries w) as (new & Hrun' & Hrows & Hnd & Hfresh);
      [by rewrite Hfile|].
    rewrite Hrun' in Hrun. injection Hrun as <- <-. simpl.
    split_and!; [done..| |].
    + intros i s Hi. apply lookup_union_Some_raw. right. split; [|done].
      apply not_elem_of_list_to_map_1. intros Hin. apply Hfresh in Hin. congruence.
    + intros i s Hi Hnew.
      apply lookup_union_Some_raw in Hi as [Hi|[_ Hi]]; [|congruence].
      apply elem_of_list_to_map_2, list_elem_of_lookup in Hi as [n Hn].
      destruct (Forall2_lookup_r _ _ _ _ _ Hrows Hn) as (entry & Hentry & Hrow).
      exists entry. split; [by eapply list_elem_of_lookup_2|]. by simpl in Hrow.
  - destruct entries as [|entry rest]; simpl in Hrun.
    + injection Hrun as <- <-. split_and!; [done..|]. intros; congruence.
    + unfold bind in Hrun. rewrite configure_one_missing in Hrun by done.
      injection Hrun as <- <-. split_and!; [done..|]. intros; congruence.
Qed.

(** ** [configureServices] as a whole *)

Lemma configureServices_decoded file w configs :
  toml_Decode (File.Content file) = Ok configs →
  configureServices file w =
    match for_range (range_order configs) (configure_one file) w with
    | (w', Ok _) =>
        log_Printf ("ADDED SERVICES FOR: " ++ File.Path file ++ newline) w'
    | (w', Err e) => (w', Err e)
    end.
Proof.
  intros Hdec. unfold configureServices, bind, lift. by rewrite Hdec.
Qed.

Lemma configureServices_undecoded file w e :
  toml_Decode (File.Content file) = Err e →
  configureServices file w = (w, Err e).
Proof.
  intros Hdec. unfold configureServices, bind, lift. by rewrite Hdec.
Qed.

(** The run of [configureServices] on a stored file whose content decodes. *)
Lemma configureServices_stored file w configs :
  toml_Decode (File.Content file) = Ok configs →
  is_Some (files (db w) !! File.ID file) →
  ∃ (w' : World) (new : list (Z * Service.t)),
    configureServices file w = (w', Ok tt)
    ∧ services (db w') = list_to_map new ∪ services (db w)
    ∧ Forall2 (λ entry ir, ir.2 = service_row file ir.1 entry)
              (range_order configs) new
    ∧ NoDup new.*1
    ∧ ∀ i, i ∈ new.*1 → services (db w) !! i = None.
Proof.
  intros Hdec Hfile.
  destruct (for_range_stored file (range_order configs) w Hfile)
    as (new & Hrun & Hrows & Hnd & Hfresh).
  eexists _, new. rewrite (configureServices_decoded _ _ _ Hdec), Hrun.
  unfold log_Printf. by split_and!.
Qed.

(** Whatever the outcome, [configureServices] writes no table but
    [services], keeps every row that was there, and adds only rows built
    from decoded entries. *)
Lemma configureServices_frame file w w' r :
  configureServices file w = (w', r) →
  files (db w') = files (db w)
  ∧ nginx_config_files (db w') = nginx_config_files (db w)
  ∧ (∀ i s, services (db w) !! i = Some s → services (db w') !! i = Some s)
  ∧ (∀ i s, services (db w') !! i = Some s → services (db w) !! i = None →
       ∃ entry : string * ServiceConfig, s = service_row file i entry).
Proof.
  intros Hrun.
  destruct (toml_Decode (File.Content file)) as [configs|e] eqn:Hdec.
  - rewrite (configureServices_decoded _ _ _ Hdec) in Hrun.
    destruct (for_range _ _ w) as [w1 r1] eqn:Hloop.
    apply for_range_frame in Hloop as (Hf & Ha & _ & Hkeep & Hnew).
    assert (db w' = db w1) as ->.
    { destruct r1; injection Hrun as <- <-; done. }
    split_and!; [done..|].
    intros i s Hi Hno. destruct (Hnew i s Hi Hno) as (entry & _ & ->). eauto.
  - rewrite (configureServices_undecoded _ _ _ Hdec) in Hrun.
    injection Hrun as <- <-. split_and!; [done..|]. intros; congruence.
Qed.

(** ** The claims on [configureServices] *)

(** C4. For a stored file whose content decodes to [configs],
    [configureServices] returns without error, adds exactly one Service row
    per decoded definition (a fresh id each, the definition's name and its
    encoded text), and every Service row that existed before the call,
    those of the file included, is still there and unmodified: nothing is
    deleted or updated. *)
Theorem configureServices_inserts_and_keeps file w configs :
  toml_Decode (File.Content file) = Ok configs →
  is_Some (files (db w) !! File.ID file) →
  ∃ (w' : World) (new : list (Z * Service.t)),
    configureServices file w = (w', Ok tt)
    ∧ services (db w') = list_to_map new ∪ services (db w)
    ∧ NoDup new.*1
    ∧ (∀ i, i ∈ new.*1 → services (db w) !! i = None)
    ∧ length new = size configs
    ∧ (λ ir, (Service.Name ir.2, Service.Content ir.2)) <$> new
        ≡ₚ (λ kc, (kc.1, (toml_Encode kc.2).1)) <$> map_to_list configs
    ∧ (∀ i s, services (db w) !! i = Some s → services (db w') !! i = Some s).
Proof.
  intros Hdec Hfile.
  destruct (configureServices_stored file w configs Hdec Hfile)
    as (w' & new & Hrun & Hsvc & Hrows & Hnd & Hfresh).
  exists w', new. split_and!; try done.
  - rewrite <-(Forall2_length _ _ _ Hrows), (range_order_perm configs).
    apply length_map_to_list.
  - rewrite <-(range_order_perm configs).
    assert ((λ ir : Z * Service.t, (Service.Name ir.2, Service.Content ir.2)) <$> new
            = (λ kc, (kc.1, (toml_Encode kc.2).1)) <$> range_order configs) as ->; [|done].
    clear -Hrows. induction Hrows as [|entry ir es irs Hrow _ IH]; [done|].
    rewrite !fmap_cons, IH, Hrow. done.
  - apply (configureServices_frame _ _ _ _ Hrun).
Qed.

(** C7. A Service row that [configureServices] has added, whether the call
    ended in an error or not, is in state [stateNotConfigured], carries the
    last-modified time of the file it was decoded from, and refers to that
    file. *)
Theorem configureServices_new_row_initial file w w' r i s :
  configureServices file w = (w', r) →
  services (db w) !! i = None →
  services (db w') !! i = Some s →
  Service.State s = stateNotConfigured
  ∧ Service.LastModified s = File.LastModified file
  ∧ Service.FileID s = Some (File.ID file).
Proof.
  intros Hrun Hno Hi.
  apply configureServices_frame in Hrun as (_ & _ & _ & Hnew).
  destruct (Hnew i s Hi Hno) as [entry ->]. done.
Qed.

(** C3. The error of [encoder.Encode] is dropped: for a stored file with a
    decoded definition that the encoder rejects, [configureServices] still
    returns no error, and stores a row holding what the encoder had written
    before it failed. *)
Theorem configureServices_drops_encode_error file w configs key config b e :
  toml_Decode (File.Content file) = Ok configs →
  configs !! key = Some config →
  toml_Encode config = (b, Some e) →
  is_Some (files (db w) !! File.ID file) →
  ∃ (w' : World) (i : Z) (s : Service.t),
    configureServices file w = (w', Ok tt)
    ∧ services (db w) !! i = None
    ∧ services (db w') !! i = Some s
    ∧ Service.Name s = key
    ∧ Service.Content s = b.
Proof.
  intros Hdec Hkey Henc Hfile.
  destruct (configureServices_stored file w configs Hdec Hfile)
    as (w' & new & Hrun & Hsvc & Hrows & Hnd & Hfresh).
  assert (Hin : (key, config) ∈ range_order configs).
  { rewrite (range_order_perm configs). by apply elem_of_map_to_list. }
  apply list_elem_of_lookup in Hin as [n Hn].
  destruct (Forall2_lookup_l _ _ _ _ _ Hrows Hn) as ([i s] & Hir & Hrow).
  simpl in Hrow. subst s.
  assert (Hir' : (i, service_row file i (key, config)) ∈ new)
    by (by eapply list_elem_of_lookup_2).
  exists w', i, (service_row file i (key, config)). split_and!; try done.
  - apply Hfresh, list_elem_of_fmap. by exists (i, service_row file i (key, config)).
  - rewrite Hsvc. apply lookup_union_Some_raw. left.
    by apply elem_of_list_to_map_1.
  - unfold service_row. simpl. by rewrite Henc.
Qed.
End Loop.

(** ** [addFile] and [updateFile] *)

Lemma addFile_read_error fs file w data err :
  getFileContent fs (Path file) = (data, Some err) →
  addFile fs file w = (w, Err err).
Proof. intros Hread. unfold addFile. by rewrite Hread. Qed.

Lemma addFile_path_taken fs file w content :
  getFileContent fs (Path file) = (content, None) →
  path_in_use (files (db w)) None (Path file) = true →
  addFile fs file w = (w, Err (UniqueViolation "files.path")).
Proof.
  intros Hread Hused. unfold addFile. rewrite Hread.
  unfold bind, File_Insert. simpl. rewrite next_rowid_fresh.
  destruct (decide (is_Some None)) as [[? ?]|_]; [done|]. by rewrite Hused.
Qed.

Lemma addFile_path_free fs file w content :
  getFileContent fs (Path file) = (content, None) →
  path_in_use (files (db w)) None (Path file) = false →
  addFile fs file w =
    (set_files (<[next_rowid (files (db w)) :=
                    file_row (next_rowid (files (db w))) file content]> (files (db w)))
               ("ADDED: " ++ Path file ++ newline) w,
     Ok tt).
Proof.
  intros Hread Hfree. unfold addFile. rewrite Hread.
  unfold bind, File_Insert. simpl. rewrite next_rowid_fresh.
  destruct (decide (is_Some None)) as [[? ?]|_]; [done|]. by rewrite Hfree.
Qed.

(** What a successful [addFile] has done. *)
Lemma addFile_ok_inv fs file w w1 :
  addFile fs file w = (w1, Ok tt) →
  ∃ content,
    getFileContent fs (Path file) = (content, None)
    ∧ path_in_use (files (db w)) None (Path file) = false
    ∧ w1 = set_files (<[next_rowid (files (db w)) :=
                          file_row (next_rowid (files (db w))) file content]>
                        (files (db w)))
                     ("ADDED: " ++ Path file ++ newline) w.
Proof.
  intros Hrun.
  destruct (getFileContent fs (Path file)) as [content [err|]] eqn:Hread.
  - by rewrite (addFile_read_error _ _ _ _ _ Hread) in Hrun.
  - destruct (path_in_use (files (db w)) None (Path file)) eqn:Hused.
    + by rewrite (addFile_path_taken _ _ _ _ Hread Hused) in Hrun.
    + rewrite (addFile_path_free _ _ _ _ Hread Hused) in Hrun.
      injection Hrun as <-. eauto.
Qed.

Lemma updateFile_read_error fs oldFile file data err :
  getFileContent fs (Path file) = (data, Some err) →
  updateFile fs oldFile file = (oldFile, fail err).
Proof. intros Hread. unfold updateFile. by rewrite Hread. Qed.

Lemma updateFile_read fs oldFile file content :
  getFileContent fs (Path file) = (content, None) →
  updateFile fs oldFile file =
    (updated_file oldFile file content,
     File_Update (updated_file oldFile file content) ;;;
     log_Printf ("UPDATED: " ++ Path file ++ newline)).
Proof. intros Hread. unfold updateFile. by rewrite Hread. Qed.

(** What a successful [updateFile] has done: the row of [oldFile], when
    there is one, holds the updated record. *)
Lemma updateFile_ok_inv fs oldFile file w w1 :
  (updateFile fs oldFile file).2 w = (w1, Ok tt) →
  ∃ content,
    getFileContent fs (Path file) = (content, None)
    ∧ (updateFile fs oldFile file).1 = updated_file oldFile file content
    ∧ ((files (db w) !! File.ID oldFile = None ∧ files (db w1) = files (db w))
       ∨ (is_Some (files (db w) !! File.ID oldFile)
          ∧ files (db w1) =
              <[File.ID oldFile := updated_file oldFile file content]> (files (db w))))
    ∧ services (db w1) = services (db w)
    ∧ nginx_config_files (db w1) = nginx_config_files (db w).
Proof.
  intros Hrun.
  destruct (getFileContent fs (Path file)) as [content [err|]] eqn:Hread.
  - by rewrite (updateFile_read_error _ _ _ _ _ Hread) in Hrun.
  - rewrite (updateFile_read _ _ _ _ Hread) in Hrun |- *. simpl in *.
    exists content. split; [done|]. split; [done|].
    unfold bind, File_Update in Hrun. simpl in Hrun.
    destruct (files (db w) !! File.ID oldFile) as [row|] eqn:Hrow.
    + destruct (path_in_use _ _ _); [done|].
      injection Hrun as <-. simpl. split_and!; [|done..]. right. eauto.
    + injection Hrun as <-. simpl. split_and!; [|done..]. by left.
Qed.

(** After the first step of a pass over a new or a modified file, the row
    of that file has [IsConfigured = false]. *)
Lemma first_step_flag_false fs file oldFile w w1 i g :
  (addFile fs file w = (w1, Ok tt) ∧ File.Path g = Path file
   ∨ (updateFile fs oldFile file).2 w = (w1, Ok tt) ∧ i = File.ID oldFile) →
  files (db w1) !! i = Some g →
  File.IsConfigured g = false.
Proof.
  intros [[Hadd Hpath]|[Hupd ->]] Hg.
  - apply addFile_ok_inv in Hadd as (content & _ & Hfree & ->). simpl in Hg.
    apply lookup_insert_Some in Hg as [[_ <-]|[_ Hg]]; [done|].
    rewrite path_in_use_false in Hfree. by specialize (Hfree _ _ Hg Hpath).
  - apply updateFile_ok_inv in Hupd as (content & _ & _ & [[Hno Hfiles]|[_ Hfiles]] & _).
    + congruence.
    + rewrite Hfiles, lookup_insert_eq in Hg. by injection Hg as <-.
Qed.

(** ** The UNIQUE index on [files.path] is kept *)

Lemma unique_paths_empty : unique_paths (files empty_db).
Proof. intros i j f g Hi. simpl in Hi. by rewrite lookup_empty in Hi. Qed.

Lemma addFile_unique_paths fs file w w1 r :
  unique_paths (files (db w)) →
  addFile fs file w = (w1, r) →
  unique_paths (files (db w1)).
Proof.
  intros Huniq Hrun.
  destruct (getFileContent fs (Path file)) as [content [err|]] eqn:Hread.
  { rewrite (addFile_read_error _ _ _ _ _ Hread) in Hrun. by injection Hrun as <- _. }
  destruct (path_in_use (files (db w)) None (Path file)) eqn:Hused.
  { rewrite (addFile_path_taken _ _ _ _ Hread Hused) in Hrun. by injection Hrun as <- _. }
  rewrite (addFile_path_free _ _ _ _ Hread Hused) in Hrun. injection Hrun as <- _.
  rewrite path_in_use_false in Hused. simpl.
  intros i j f g [[-> <-]|[Hi Hf]]%lookup_insert_Some [[-> <-]|[Hj Hg]]%lookup_insert_Some Hp;
    simpl in Hp.
  - done.
  - by specialize (Hused _ _ Hg (eq_sym Hp)).
  - by specialize (Hused _ _ Hf Hp).
  - by eapply Huniq.
Qed.

Lemma updateFile_unique_paths fs oldFile file w w1 r :
  unique_paths (files (db w)) →
  (updateFile fs oldFile file).2 w = (w1, r) →
  unique_paths (files (db w1)).
Proof.
  intros Huniq Hrun.
  destruct (getFileContent fs (Path file)) as [content [err|]] eqn:Hread.
  { rewrite (updateFile_read_error _ _ _ _ _ Hread) in Hrun. by injection Hrun as <- _. }
  rewrite (updateFile_read _ _ _ _ Hread) in Hrun. simpl in Hrun.
  unfold bind, File_Update in Hrun. simpl in Hrun.
  destruct (files (db w) !! File.ID oldFile) as [row|] eqn:Hrow;
    [|by injection Hrun as <- _].
  destruct (path_in_use _ _ _) eqn:Hused; [by injection Hrun as <- _|].
  injection Hrun as <- _. simpl.
  rewrite path_in_use_false in Hused. simpl in Hused.
  intros i j f g [[<- <-]|[Hi Hf]]%lookup_insert_Some [[<- <-]|[Hj Hg]]%lookup_insert_Some Hp;
    simpl in Hp.
  - done.
  - specialize (Hused _ _ Hg (eq_sym Hp)). congruence.
  - specialize (Hused _ _ Hf Hp). congruence.
  - by eapply Huniq.
Qed.

(** ** The claims on [addFile] and [updateFile] *)

(** C6. For a stored File and a scanned file whose content can be read,
    [updateFile] returns without error; the record behind [oldFile] and the
    File's row then hold the content read and the scanned modification
    time, and the flag [IsConfigured] is false; identity, path and name are
    kept, and no other row of any table changes. *)
Theorem updateFile_resets_flag fs oldFile file w content :
  files (db w) !! File.ID oldFile = Some oldFile →
  unique_paths (files (db w)) →
  getFileContent fs (Path file) = (content, None) →
  ∃ (w1 : World) (row : File.t),
    (updateFile fs oldFile file).2 w = (w1, Ok tt)
    ∧ (updateFile fs oldFile file).1 = row
    ∧ files (db w1) !! File.ID oldFile = Some row
    ∧ File.Content row = content
    ∧ File.LastModified row = ModTime file
    ∧ File.IsConfigured row = false
    ∧ File.ID row = File.ID oldFile
    ∧ File.Path row = File.Path oldFile
    ∧ File.Name row = File.Name oldFile
    ∧ (∀ j, j ≠ File.ID oldFile → files (db w1) !! j = files (db w) !! j)
    ∧ services (db w1) = services (db w)
    ∧ nginx_config_files (db w1) = nginx_config_files (db w).
Proof.
  intros Hstored Huniq Hread.
  rewrite (updateFile_read _ _ _ _ Hread). simpl.
  unfold bind, File_Update. simpl. rewrite Hstored.
  assert (path_in_use (files (db w)) (Some (File.ID oldFile)) (File.Path oldFile) = false)
    as ->.
  { apply path_in_use_false. intros i f Hi Hp. f_equal. by eapply Huniq. }
  eexists _, (updated_file oldFile file content). simpl.
  split_and!; try done.
  - apply lookup_insert_eq.
  - intros j Hj. by apply lookup_insert_ne.
Qed.

(** C8. After an [addFile] that succeeded, an [addFile] for the same path
    whose content can be read fails with the violation of the UNIQUE index
    on [files.path] and leaves the world as it was: the row of the first
    call is the only row with that path, and it is unchanged. *)
Theorem addFile_same_path_rejected fs1 fs2 file1 file2 w w1 content2 :
  addFile fs1 file1 w = (w1, Ok tt) →
  Path file2 = Path file1 →
  getFileContent fs2 (Path file2) = (content2, None) →
  addFile fs2 file2 w1 = (w1, Err (UniqueViolation "files.path"))
  ∧ ∃ (i : Z) (content1 : string),
      files (db w1) !! i = Some (file_row i file1 content1)
      ∧ ∀ j g, files (db w1) !! j = Some g → File.Path g = Path file1 → j = i.
Proof.
  intros Hadd Hpath Hread.
  apply addFile_ok_inv in Hadd as (content1 & _ & Hfree & ->).
  set (i := next_rowid (files (db w))).
  assert (Hrow : files (db (set_files (<[i := file_row i file1 content1]> (files (db w)))
                                      ("ADDED: " ++ Path file1 ++ newline) w)) !! i
                 = Some (file_row i file1 content1)) by apply lookup_insert_eq.
  split.
  - apply (addFile_path_taken _ _ _ _ Hread), path_in_use_true.
    exists i, (file_row i file1 content1). by rewrite Hpath.
  - exists i, content1. split; [done|].
    intros j g Hj Hg. simpl in Hj.
    apply lookup_insert_Some in Hj as [[<- _]|[_ Hj]]; [done|].
    rewrite path_in_use_false in Hfree. by specialize (Hfree _ _ Hj Hg).
Qed.

(** ** Deleting rows under the schema *)

Lemma delete_services_eq gone d :
  delete_services gone d =
    Ok {| files := files d;
          services := filter (λ kr, kr.1 ∉ gone) (services d);
          nginx_config_files :=
            (λ a, if refers_to gone (NginxConfigFile.ServiceID a)
                  then null_service_id a else a) <$> nginx_config_files d |}.
Proof. reflexivity. Qed.

Lemma delete_files_eq gone d :
  delete_files gone d =
    delete_services
      (dom (filter (λ kr, refers_to gone (Service.FileID kr.2) = true) (services d)))
      {| files := filter (λ kr, kr.1 ∉ gone) (files d);
         services := filter (λ kr, refers_to gone (Service.FileID kr.2) = false)
                            (services d);
         nginx_config_files := nginx_config_files d |}.
Proof. reflexivity. Qed.

Lemma refers_to_singleton (id : Z) (r : option Z) :
  refers_to {[ id ]} r = true ↔ r = Some id.
Proof.
  destruct r as [p|]; simpl; [|done].
  rewrite bool_decide_eq_true, elem_of_singleton. split; congruence.
Qed.

(** An artifact of a deleted service keeps its row and loses its reference. *)
Lemma delete_services_artifact gone d d' aid a sid :
  delete_services gone d = Ok d' →
  nginx_config_files d !! aid = Some a →
  NginxConfigFile.ServiceID a = Some sid →
  sid ∈ gone →
  services d' !! sid = None
  ∧ nginx_config_files d' !! aid = Some (null_service_id a)
  ∧ dom (nginx_config_files d') = dom (nginx_config_files d).
Proof.
  rewrite delete_services_eq. intros [= <-] Ha Href Hgone. simpl. split_and!.
  - apply map_lookup_filter_None. right. intros s _. simpl. tauto.
  - rewrite lookup_fmap, Ha. simpl. rewrite Href. simpl.
    by rewrite bool_decide_true.
  - apply dom_fmap_L.
Qed.

(** C1, as the code has it. Deleting a File row deletes, with it, every
    Service row that referred to it: [services.file_id] is declared
    ON DELETE CASCADE, so no such row is left with a null reference. *)
Theorem delete_file_deletes_services d fid sid s :
  is_Some (files d !! fid) →
  services d !! sid = Some s →
  Service.FileID s = Some fid →
  ∃ d', delete_file fid d = Ok d'
        ∧ files d' !! fid = None
        ∧ services d' !! sid = None.
Proof.
  intros Hfile Hs Hfid. unfold delete_file.
  destruct (decide _) as [_|Hno]; [|by destruct Hno].
  rewrite delete_files_eq. eexists. split; [apply delete_services_eq|].
  simpl. split.
  - apply map_lookup_filter_None. right. intros f _. simpl.
    rewrite elem_of_singleton. tauto.
  - apply map_lookup_filter_None. left.
    apply map_lookup_filter_None. right. intros s' Hs'. simpl.
    assert (s' = s) as -> by congruence.
    rewrite not_false_iff_true. by apply refers_to_singleton.
Qed.

(** ** The claims at concrete inputs *)

Lemma configureServices_inserts_and_keeps_witness :
  ∃ (w' : World) (new : list (Z * Service.t)),
    configureServices (codec := Fixture.codec)
      (Fixture.stored "a = 1, b = 2") (Fixture.added "a = 1, b = 2") = (w', Ok tt)
    ∧ services (db w') = list_to_map new ∪ services (db (Fixture.added "a = 1, b = 2"))
    ∧ NoDup new.*1
    ∧ (∀ i, i ∈ new.*1 → services (db (Fixture.added "a = 1, b = 2")) !! i = None)
    ∧ length new = size ({[ "a" := "1"; "b" := "2" ]} : gmap string string)
    ∧ (λ ir, (Service.Name ir.2, Service.Content ir.2)) <$> new
        ≡ₚ (λ kc, (kc.1, (Fixture.encode kc.2).1))
             <$> map_to_list ({[ "a" := "1"; "b" := "2" ]} : gmap string string)
    ∧ (∀ i s, services (db (Fixture.added "a = 1, b = 2")) !! i = Some s →
              services (db w') !! i = Some s).
Proof.
  apply (configureServices_inserts_and_keeps (codec := Fixture.codec)).
  - reflexivity.
  - vm_compute. eexists. reflexivity.
Defined.

Lemma configureServices_new_row_initial_witness :
  ∃ s : Service.t,
    services (db (configureServices (codec := Fixture.codec)
                    (Fixture.stored "web = up") (Fixture.added "web = up")).1) !! 1%Z
      = Some s
    ∧ Service.State s = stateNotConfigured
    ∧ Service.LastModified s = File.LastModified (Fixture.stored "web = up")
    ∧ Service.FileID s = Some (File.ID (Fixture.stored "web = up")).
Proof.
  eexists. split; [vm_compute; reflexivity|].
  eapply (configureServices_new_row_initial (codec := Fixture.codec)
            (Fixture.stored "web = up") (Fixture.added "web = up") _ _ 1%Z).
  - apply surjective_pairing.
  - vm_compute. reflexivity.
  - vm_compute. reflexivity.
Defined.

Lemma configureServices_drops_encode_error_witness :
  Fixture.encode "bad" = ("", Some (EncodeError "unsupported value"))
  ∧ ∃ (w' : World) (i : Z) (s : Service.t),
      configureServices (codec := Fixture.codec)
        (Fixture.stored "web = bad") (Fixture.added "web = bad") = (w', Ok tt)
      ∧ services (db (Fixture.added "web = bad")) !! i = None
      ∧ services (db w') !! i = Some s
      ∧ Service.Name s = "web"
      ∧ Service.Content s = "".
Proof.
  split; [reflexivity|].
  apply (configureServices_drops_encode_error (codec := Fixture.codec)
           (Fixture.stored "web = bad") (Fixture.added "web = bad")
           {[ "web" := "bad" ]} "web" "bad" "" (EncodeError "unsupported value")).
  - reflexivity.
  - vm_compute. reflexivity.
  - reflexivity.
  - vm_compute. eexists. reflexivity.
Defined.

Lemma updateFile_resets_flag_witness :
  ∃ (w1 : World) (row : File.t),
    (updateFile (Fixture.disk Fixture.sites "web = down") (Fixture.stored "web = up")
                (Fixture.scan Fixture.sites 20)).2 (Fixture.added "web = up")
      = (w1, Ok tt)
    ∧ (updateFile (Fixture.disk Fixture.sites "web = down") (Fixture.stored "web = up")
                  (Fixture.scan Fixture.sites 20)).1 = row
    ∧ files (db w1) !! 1%Z = Some row
    ∧ File.Content row = "web = down"
    ∧ File.LastModified row = 20%Z
    ∧ File.IsConfigured row = false
    ∧ File.ID row = 1%Z
    ∧ File.Path row = Fixture.sites
    ∧ File.Name row = "sites"
    ∧ (∀ j, j ≠ 1%Z → files (db w1) !! j = files (db (Fixture.added "web = up")) !! j)
    ∧ services (db w1) = services (db (Fixture.added "web = up"))
    ∧ nginx_config_files (db w1) = nginx_config_files (db (Fixture.added "web = up")).
Proof.
  apply (updateFile_resets_flag (Fixture.disk Fixture.sites "web = down")
           (Fixture.stored "web = up") (Fixture.scan Fixture.sites 20)
           (Fixture.added "web = up") "web = down").
  - vm_compute. reflexivity.
  - apply (addFile_unique_paths (Fixture.disk Fixture.sites "web = up")
             (Fixture.scan Fixture.sites 10) Fixture.start _ (Ok tt)
             unique_paths_empty).
    reflexivity.
  - reflexivity.
Defined.

Lemma addFile_same_path_rejected_witness :
  addFile (Fixture.disk Fixture.sites "web = down") (Fixture.scan Fixture.sites 20)
          (Fixture.added "web = up")
    = (Fixture.added "web = up", Err (UniqueViolation "files.path"))
  ∧ ∃ (i : Z) (content1 : string),
      files (db (Fixture.added "web = up")) !! i
        = Some (file_row i (Fixture.scan Fixture.sites 10) content1)
      ∧ ∀ j g, files (db (Fixture.added "web = up")) !! j = Some g →
               File.Path g = Fixture.sites → j = i.
Proof.
  apply (addFile_same_path_rejected (Fixture.disk Fixture.sites "web = up")
           (Fixture.disk Fixture.sites "web = down")
           (Fixture.scan Fixture.sites 10) (Fixture.scan Fixture.sites 20)
           Fixture.start (Fixture.added "web = up") "web = down").
  - reflexivity.
  - reflexivity.
  - reflexivity.
Defined.

Lemma delete_file_deletes_services_witness :
  ∃ d', delete_file 1 Fixture.populated = Ok d'
        ∧ files d' !! 1%Z = None
        ∧ services d' !! 1%Z = None.
Proof.
  apply (delete_file_deletes_services Fixture.populated 1 1 (Fixture.service 1 "web")).
  - vm_compute. eexists. reflexivity.
  - vm_compute. reflexivity.
  - reflexivity.
Defined.

(** C1 at a concrete input: deleting the file of [Fixture.populated] leaves
    no Service row, so none with a null reference, and nulls the reference
    of both artifacts. *)
Lemma delete_file_populated :
  ∃ d', delete_file 1 Fixture.populated = Ok d'
        ∧ files d' = ∅
        ∧ services d' = ∅
        ∧ services d' !! 1%Z ≠ Some (null_file_id (Fixture.service 1 "web"))
        ∧ nginx_config_files d' !! 1%Z
            = Some (null_service_id (Fixture.artifact 1 1 "/etc/nginx/web.conf"))
        ∧ nginx_config_files d' !! 2%Z
            = Some (null_service_id (Fixture.artifact 2 2 "/etc/nginx/api.conf")).
Proof.
  eexists. split; [vm_compute; reflexivity|]. simpl.
  split_and!; [vm_compute; reflexivity| vm_compute; reflexivity| |
               vm_compute; reflexivity| vm_compute; reflexivity].
  vm_compute. discriminate.
Qed.

(** * Further properties of db.go *)

(** ** [addFile] *)

(** X1. [addFile] returns no error exactly when the content of the scanned
    file can be read and no stored File has its path. *)
Theorem addFile_succeeds_iff fs file w :
  (∃ w', addFile fs file w = (w', Ok tt))
  ↔ (∃ content, getFileContent fs (Path file) = (content, None))
    ∧ ∀ i f, files (db w) !! i = Some f → File.Path f ≠ Path file.
Proof.
  split.
  - intros [w' Hrun].
    apply addFile_ok_inv in Hrun as (content & Hread & Hfree & _).
    split; [by exists content|].
    rewrite path_in_use_false in Hfree.
    intros i f Hi Hp. by specialize (Hfree _ _ Hi Hp).
  - intros [[content Hread] Hfree]. eexists.
    apply (addFile_path_free _ _ _ _ Hread).
    apply path_in_use_false. intros i f Hi Hp. by destruct (Hfree _ _ Hi).
Qed.

(** X2. When [addFile] returns no error, the files table has exactly one
    more row, under an id no row had: it carries the scanned path, the
    scanned name without its extension, the content read, the scanned
    modification time and [IsConfigured = false]. It is the only row with
    that path, every other row of every table is as before, and the one
    line logged is [ADDED: <path>]. *)
Theorem addFile_adds_one_row fs file w w' :
  addFile fs file w = (w', Ok tt) →
  ∃ (i : Z) (row : File.t),
    files (db w) !! i = None
    ∧ files (db w') = <[i := row]> (files (db w))
    ∧ size (files (db w')) = S (size (files (db w)))
    ∧ File.ID row = i
    ∧ File.Path row = Path file
    ∧ File.Name row = TrimSuffix (Name file) (Ext (Name file))
    ∧ getFileContent fs (Path file) = (File.Content row, None)
    ∧ File.LastModified row = ModTime file
    ∧ File.IsConfigured row = false
    ∧ (∀ j g, files (db w') !! j = Some g → File.Path g = Path file → j = i)
    ∧ services (db w') = services (db w)
    ∧ nginx_config_files (db w') = nginx_config_files (db w)
    ∧ logged w' = (logged w ++ [("ADDED: " ++ Path file ++ newline)%string])%list.
Proof.
  intros Hrun.
  apply addFile_ok_inv in Hrun as (content & Hread & Hfree & ->).
  set (i := next_rowid (files (db w))).
  exists i, (file_row i file content). simpl.
  split_and!; try done.
  - apply next_rowid_fresh.
  - apply map_size_insert_None, next_rowid_fresh.
  - intros j g [[<- _]|[_ Hj]]%lookup_insert_Some Hp; [done|].
    rewrite path_in_use_false in Hfree. by specialize (Hfree _ _ Hj Hp).
Qed.

Lemma addFile_error_unchanged fs file w w' e :
  addFile fs file w = (w', Err e) → w' = w.
Proof.
  intros Hrun.
  destruct (getFileContent fs (Path file)) as [content [err|]] eqn:Hread.
  { rewrite (addFile_read_error _ _ _ _ _ Hread) in Hrun. by injection Hrun as <- _. }
  destruct (path_in_use (files (db w)) None (Path file)) eqn:Hused.
  - rewrite (addFile_path_taken _ _ _ _ Hread Hused) in Hrun. by injection Hrun as <- _.
  - by rewrite (addFile_path_free _ _ _ _ Hread Hused) in Hrun.
Qed.

Lemma updateFile_error_unchanged fs oldFile file w w' e :
  (updateFile fs oldFile file).2 w = (w', Err e) → w' = w.
Proof.
  intros Hrun.
  destruct (getFileContent fs (Path file)) as [content [err|]] eqn:Hread.
  { rewrite (updateFile_read_error _ _ _ _ _ Hread) in Hrun. by injection Hrun as <- _. }
  rewrite (updateFile_read _ _ _ _ Hread) in Hrun. simpl in Hrun.
  unfold bind, File_Update in Hrun. simpl in Hrun.
  destruct (files (db w) !! File.ID oldFile); [|done].
  destruct (path_in_use _ _ _); [|done]. by injection Hrun as <- _.
Qed.

(** X3. An [addFile] or [updateFile] that returns an error has changed
    nothing: the store and the log are as before the call. *)
Theorem failed_write_changes_nothing fs oldFile file w w' e :
  addFile fs file w = (w', Err e)
  ∨ (updateFile fs oldFile file).2 w = (w', Err e) →
  w' = w.
Proof.
  intros [Hrun|Hrun].
  - by eapply addFile_error_unchanged.
  - by eapply updateFile_error_unchanged.
Qed.

(** ** [updateFile] *)

(** X4. [updateFile] for a File that has no row (no row with the id of
    [oldFile]) and readable content returns no error and logs
    [UPDATED: <path>], yet writes nothing: the three tables are as before,
    while the record behind [oldFile] has taken the new content and time. *)
Theorem updateFile_without_row fs oldFile file w content :
  files (db w) !! File.ID oldFile = None →
  getFileContent fs (Path file) = (content, None) →
  (updateFile fs oldFile file).2 w =
    ({| db := db w;
        logged := (logged w ++ [("UPDATED: " ++ Path file ++ newline)%string])%list |},
     Ok tt)
  ∧ File.Content (updateFile fs oldFile file).1 = content
  ∧ File.LastModified (updateFile fs oldFile file).1 = ModTime file
  ∧ File.IsConfigured (updateFile fs oldFile file).1 = false.
Proof.
  intros Hno Hread. rewrite (updateFile_read _ _ _ _ Hread). simpl.
  unfold bind, File_Update. simpl. by rewrite Hno.
Qed.

(** X5. [updateFile] changes the record behind [oldFile] before it writes
    the row. When the content can be read and the UPDATE is then refused,
    because another row has the path of [oldFile], the error is returned
    and the store and the log are as before, but [oldFile] already holds the
    new content, the new time and [IsConfigured = false]. *)
Theorem updateFile_refused_update fs oldFile file w content j g :
  is_Some (files (db w) !! File.ID oldFile) →
  getFileContent fs (Path file) = (content, None) →
  files (db w) !! j = Some g →
  File.Path g = File.Path oldFile →
  j ≠ File.ID oldFile →
  (updateFile fs oldFile file).2 w = (w, Err (UniqueViolation "files.path"))
  ∧ File.Content (updateFile fs oldFile file).1 = content
  ∧ File.LastModified (updateFile fs oldFile file).1 = ModTime file
  ∧ File.IsConfigured (updateFile fs oldFile file).1 = false.
Proof.
  intros [row Hrow] Hread Hj Hp Hne.
  rewrite (updateFile_read _ _ _ _ Hread). simpl.
  unfold bind, File_Update. simpl. rewrite Hrow.
  assert (path_in_use (files (db w)) (Some (File.ID oldFile)) (File.Path oldFile) = true)
    as ->; [|done].
  apply path_in_use_true. exists j, g. split_and!; [done..|]. congruence.
Qed.

(** ** [configureServices] *)

Section MoreConfigureServices.
Context {ServiceConfig : Type} {codec : TomlCodec ServiceConfig}.
Implicit Types (file : File.t) (w : World).

(** Without a row for the file, the first turn of the loop is refused and
    the loop writes nothing. *)
Lemma for_range_missing file (entries : list (string * ServiceConfig)) w :
  files (db w) !! File.ID file = None →
  for_range entries (configure_one file) w =
    (w, match entries with [] => Ok tt | _ => Err ForeignKeyViolation end).
Proof.
  intros Hno. destruct entries as [|entry rest]; [done|]. simpl.
  unfold bind. by rewrite configure_one_missing.
Qed.

(** X6. For a File that has no row in the store and whose content decodes
    to at least one definition, [configureServices] returns the violation of
    the foreign key on [services.file_id] and changes nothing: no Service
    row is stored and nothing is logged. *)
Theorem configureServices_without_file_row file w configs :
  files (db w) !! File.ID file = None →
  toml_Decode (File.Content file) = Ok configs →
  configs ≠ ∅ →
  configureServices file w = (w, Err ForeignKeyViolation).
Proof.
  intros Hno Hdec Hne.
  rewrite (configureServices_decoded _ _ _ Hdec), (for_range_missing _ _ _ Hno).
  destruct (range_order configs) as [|entry rest] eqn:Horder; [|done].
  destruct Hne. apply map_to_list_empty_iff, Permutation_nil_r.
  by rewrite <-Horder, (range_order_perm configs).
Qed.

(** X7. When the content decodes to no definition at all,
    [configureServices] returns no error, stores nothing and logs
    [ADDED SERVICES FOR: <path>], whether or not the File has a row. *)
Theorem configureServices_no_definitions file w :
  toml_Decode (File.Content file) = Ok ∅ →
  configureServices file w =
    ({| db := db w;
        logged := (logged w
                   ++ [("ADDED SERVICES FOR: " ++ File.Path file ++ newline)%string])%list |},
     Ok tt).
Proof.
  intros Hdec. rewrite (configureServices_decoded _ _ _ Hdec).
  assert (range_order (∅ : gmap string ServiceConfig) = []) as ->; [|done].
  apply Permutation_nil_r. by rewrite (range_order_perm ∅), map_to_list_empty.
Qed.

(** X8. Running [configureServices] a second time on the same stored file
    stores its definitions again: after two runs the services table has
    grown by twice the number of decoded definitions, and every row of the
    first run is still there, unchanged and still referring to the file. *)
Theorem configureServices_twice_duplicates file w configs :
  toml_Decode (File.Content file) = Ok configs →
  is_Some (files (db w) !! File.ID file) →
  ∃ w1 w2 : World,
    configureServices file w = (w1, Ok tt)
    ∧ configureServices file w1 = (w2, Ok tt)
    ∧ size (services (db w1)) = size (services (db w)) + size configs
    ∧ size (services (db w2)) = size (services (db w)) + 2 * size configs
    ∧ (∀ i s, services (db w1) !! i = Some s → services (db w2) !! i = Some s)
    ∧ (∀ i s, services (db w1) !! i = Some s → services (db w) !! i = None →
         Service.FileID s = Some (File.ID file)).
Proof.
  intros Hdec Hfile.
  assert (Hgrow : ∀ v, is_Some (files (db v) !! File.ID file) →
            ∃ v', configureServices file v = (v', Ok tt)
                  ∧ size (services (db v')) = size (services (db v)) + size configs).
  { intros v Hv.
    destruct (configureServices_stored file v configs Hdec Hv)
      as (v' & new & Hrun & Hsvc & Hrows & Hnd & Hfresh).
    exists v'. split; [done|]. rewrite Hsvc, map_size_disj_union.
    - rewrite map_size_list_to_map by done.
      rewrite <-(Forall2_length _ _ _ Hrows), (range_order_perm configs),
        length_map_to_list. lia.
    - apply map_disjoint_spec. intros i x y Hx%elem_of_list_to_map_2 Hy.
      assert (i ∈ new.*1) as Hi%Hfresh by (apply list_elem_of_fmap; by exists (i, x)).
      congruence. }
  destruct (Hgrow w Hfile) as (w1 & Hrun1 & Hsize1).
  pose proof (configureServices_frame _ _ _ _ Hrun1) as (Hfiles1 & _ & _ & Hnew1).
  destruct (Hgrow w1) as (w2 & Hrun2 & Hsize2); [by rewrite Hfiles1|].
  pose proof (configureServices_frame _ _ _ _ Hrun2) as (_ & _ & Hkeep2 & _).
  exists w1, w2. split_and!; [done|done|done|lia|done|].
  intros i s Hi Hno. by destruct (Hnew1 i s Hi Hno) as [entry ->].
Qed.

(** X9. Each of [addFile], [updateFile] and [configureServices] writes its
    line to the log exactly when it returns no error, after whatever the
    log held, and never anything else. *)
Theorem logs_exactly_on_success fs scanned oldFile file w w' r :
  (addFile fs scanned w = (w', r) →
   logged w' = (logged w
                ++ logged_on_success ("ADDED: " ++ Path scanned ++ newline) r)%list)
  ∧ ((updateFile fs oldFile scanned).2 w = (w', r) →
     logged w' = (logged w
                  ++ logged_on_success ("UPDATED: " ++ Path scanned ++ newline) r)%list)
  ∧ (configureServices file w = (w', r) →
     logged w' = (logged w
                  ++ logged_on_success
                       ("ADDED SERVICES FOR: " ++ File.Path file ++ newline) r)%list).
Proof.
  split_and!; intros Hrun.
  - destruct r as [[]|e].
    + apply addFile_ok_inv in Hrun as (content & _ & _ & ->). done.
    + rewrite (addFile_error_unchanged _ _ _ _ _ Hrun).
      symmetry. apply app_nil_r.
  - destruct r as [[]|e].
    + destruct (getFileContent fs (Path scanned)) as [content [err|]] eqn:Hread.
      { by rewrite (updateFile_read_error _ _ _ _ _ Hread) in Hrun. }
      rewrite (updateFile_read _ _ _ _ Hread) in Hrun. simpl in Hrun.
      unfold bind, File_Update in Hrun. simpl in Hrun.
      destruct (files (db w) !! File.ID oldFile); [|by injection Hrun as <-].
      destruct (path_in_use _ _ _); [done|]. by injection Hrun as <-.
    + rewrite (updateFile_error_unchanged _ _ _ _ _ _ Hrun).
      symmetry. apply app_nil_r.
  - destruct (toml_Decode (File.Content file)) as [configs|e] eqn:Hdec.
    + rewrite (configureServices_decoded _ _ _ Hdec) in Hrun.
      destruct (for_range _ _ w) as [w1 r1] eqn:Hloop.
      apply for_range_frame in Hloop as (_ & _ & Hlog & _).
      destruct r1 as [[]|e]; injection Hrun as <- <-; simpl;
        rewrite Hlog; [done|]. symmetry. apply app_nil_r.
    + rewrite (configureServices_undecoded _ _ _ Hdec) in Hrun.
      injection Hrun as <- <-. symmetry. apply app_nil_r.
Qed.
End MoreConfigureServices.

(** ** Consistency is kept *)

Lemma consistent_empty : consistent empty_db.
Proof.
  split; [apply unique_paths_empty|]. split.
  - split_and!; intros i x Hi; simpl in Hi; by rewrite lookup_empty in Hi.
  - split; intros i x ? Hi; simpl in Hi; by rewrite lookup_empty in Hi.
Qed.

Lemma consistent_addFile fs file w w' r :
  consistent (db w) → addFile fs file w = (w', r) → consistent (db w').
Proof.
  intros (Huniq & (Hf & Hs & Ha) & (Hsf & Has)) Hrun.
  destruct r as [[]|e]; [|by rewrite (addFile_error_unchanged _ _ _ _ _ Hrun)].
  split; [by eapply addFile_unique_paths|].
  apply addFile_ok_inv in Hrun as (content & _ & _ & ->).
  unfold ids_match, referential_integrity. simpl.
  split; [split_and!; [|done..]|split; [|done]].
  - intros i f [[<- <-]|[_ Hi]]%lookup_insert_Some; [done|by apply Hf].
  - intros i s fid Hi Hfid. apply lookup_insert_is_Some'. right. by eapply Hsf.
Qed.

Lemma consistent_updateFile fs oldFile file w w' r :
  consistent (db w) → (updateFile fs oldFile file).2 w = (w', r) → consistent (db w').
Proof.
  intros (Huniq & (Hf & Hs & Ha) & (Hsf & Has)) Hrun.
  destruct r as [[]|e]; [|by rewrite (updateFile_error_unchanged _ _ _ _ _ _ Hrun)].
  split; [by eapply updateFile_unique_paths|].
  apply updateFile_ok_inv in Hrun
    as (content & _ & _ & [[_ Hfiles]|[_ Hfiles]] & Hsvc & Hart);
    unfold ids_match, referential_integrity; rewrite Hfiles, Hsvc, Hart; [done|].
  split; [split_and!; [|done..]|split; [|done]].
  - intros i f [[<- <-]|[_ Hi]]%lookup_insert_Some; [done|by apply Hf].
  - intros i s fid Hi Hfid. apply lookup_insert_is_Some'. right. by eapply Hsf.
Qed.

Lemma consistent_delete_services gone d d' :
  consistent d → delete_services gone d = Ok d' → consistent d'.
Proof.
  intros (Huniq & (Hf & Hs & Ha) & (Hsf & Has)). rewrite delete_services_eq.
  intros [= <-]. split; [done|].
  unfold ids_match, referential_integrity. split; simpl.
  - split_and!; [done| |].
    + intros i s [Hi _]%map_lookup_filter_Some. by apply Hs.
    + intros i a. rewrite lookup_fmap.
      destruct (nginx_config_files d !! i) as [a0|] eqn:Hi; [|done].
      intros [= <-]. destruct (refers_to _ _); simpl; by apply Ha.
  - split.
    + intros i s fid [Hi _]%map_lookup_filter_Some Hfid. by eapply Hsf.
    + intros i a sid. rewrite lookup_fmap.
      destruct (nginx_config_files d !! i) as [a0|] eqn:Hi; [|done].
      intros [= <-]. destruct (refers_to gone _) eqn:Href; [done|].
      intros Hsid. destruct (Has _ _ _ Hi Hsid) as [s Hs'].
      exists s. apply map_lookup_filter_Some. split; [done|]. simpl.
      rewrite Hsid in Href. simpl in Href. by apply bool_decide_eq_false in Href.
Qed.

Lemma consistent_delete_files gone d d' :
  consistent d → delete_files gone d = Ok d' → consistent d'.
Proof.
  intros (Huniq & (Hf & Hs & Ha) & (Hsf & Has)). rewrite delete_files_eq.
  rewrite delete_services_eq. intros [= <-].
  unfold consistent, ids_match, referential_integrity. split; [|split]; simpl.
  - intros i j f g [Hi _]%map_lookup_filter_Some [Hj _]%map_lookup_filter_Some.
    by apply Huniq.
  - split_and!.
    + intros i f [Hi _]%map_lookup_filter_Some. by apply Hf.
    + intros i s [[Hi _]%map_lookup_filter_Some _]%map_lookup_filter_Some. by apply Hs.
    + intros i a. rewrite lookup_fmap.
      destruct (nginx_config_files d !! i) as [a0|] eqn:Hi; [|done].
      intros [= <-]. destruct (refers_to _ _); simpl; by apply Ha.
  - split.
    + intros i s fid [[Hi Hkeep]%map_lookup_filter_Some _]%map_lookup_filter_Some Hfid.
      simpl in Hkeep. destruct (Hsf _ _ _ Hi Hfid) as [f Hfile].
      exists f. apply map_lookup_filter_Some. split; [done|]. simpl.
      rewrite Hfid in Hkeep. simpl in Hkeep. by apply bool_decide_eq_false in Hkeep.
    + intros i a sid. rewrite lookup_fmap.
      destruct (nginx_config_files d !! i) as [a0|] eqn:Hi; [|done].
      intros [= <-].
      destruct (refers_to _ (NginxConfigFile.ServiceID a0)) eqn:Href; [done|].
      intros Hsid. destruct (Has _ _ _ Hi Hsid) as [s Hs'].
      rewrite Hsid in Href. simpl in Href. apply bool_decide_eq_false in Href.
      exists s. apply map_lookup_filter_Some. split; [|done].
      apply map_lookup_filter_Some. split; [done|]. simpl.
      apply not_true_is_false. intros Hgone. apply Href, elem_of_dom.
      exists s. by apply map_lookup_filter_Some.
Qed.

Section StepsKeepConsistency.
Context {ServiceConfig : Type} {codec : TomlCodec ServiceConfig}.

(** A Service row is added only for a File that has a row. *)
Lemma configureServices_new_row_has_file (file : File.t) w w' r i s :
  configureServices file w = (w', r) →
  services (db w) !! i = None →
  services (db w') !! i = Some s →
  is_Some (files (db w) !! File.ID file).
Proof.
  intros Hrun Hno Hi.
  destruct (files (db w) !! File.ID file) as [f|] eqn:Hfile; [by eexists|].
  exfalso.
  destruct (toml_Decode (File.Content file)) as [configs|e] eqn:Hdec.
  - rewrite (configureServices_decoded _ _ _ Hdec), (for_range_missing _ _ _ Hfile)
      in Hrun.
    destruct (range_order configs); injection Hrun as <- _; simpl in Hi; congruence.
  - rewrite (configureServices_undecoded _ _ _ Hdec) in Hrun.
    injection Hrun as <- _. congruence.
Qed.

Lemma consistent_configureServices (file : File.t) w w' r :
  consistent (db w) → configureServices file w = (w', r) → consistent (db w').
Proof.
  intros (Huniq & (Hf & Hs & Ha) & (Hsf & Has)) Hrun.
  pose proof (configureServices_frame _ _ _ _ Hrun) as (Hfiles & Hart & Hkeep & Hnew).
  unfold consistent, ids_match, referential_integrity. rewrite Hfiles, Hart.
  split; [done|]. split; [split_and!; [done| |done]|split].
  - intros i s Hi. destruct (services (db w) !! i) as [s0|] eqn:Hold.
    + rewrite (Hkeep _ _ Hold) in Hi. injection Hi as <-. by apply Hs.
    + by destruct (Hnew _ _ Hi Hold) as [entry ->].
  - intros i s fid Hi Hfid. destruct (services (db w) !! i) as [s0|] eqn:Hold.
    + rewrite (Hkeep _ _ Hold) in Hi. injection Hi as <-. by eapply Hsf.
    + pose proof (configureServices_new_row_has_file _ _ _ _ _ _ Hrun Hold Hi) as Hfile.
      destruct (Hnew _ _ Hi Hold) as [entry ->]. simpl in Hfid. by injection Hfid as <-.
  - intros i a sid Hi Hsid. destruct (Has _ _ _ Hi Hsid) as [s Hs'].
    exists s. by apply Hkeep.
Qed.

Lemma consistent_step w w' :
  consistent (db w) → step w w' → consistent (db w').
Proof.
  intros Hcons Hstep.
  destruct Hstep as [fs file w w' r Hrun|fs oldFile file w w' r Hrun|file w w' r Hrun
                    |id w d' Hrun|id w d' Hrun].
  - by eapply consistent_addFile.
  - by eapply consistent_updateFile.
  - by eapply consistent_configureServices.
  - simpl. unfold delete_file in Hrun. destruct (decide _).
    + by eapply consistent_delete_files.
    + by injection Hrun as <-.
  - simpl. unfold delete_service in Hrun. destruct (decide _).
    + by eapply consistent_delete_services.
    + by injection Hrun as <-.
Qed.

End StepsKeepConsistency.

(** ** [filepath.Ext] and [strings.TrimSuffix] *)

Lemma substring_prefix (p e : string) :
  substring 0 (String.length p) (p ++ e) = p.
Proof.
  induction p as [|c p IH]; simpl.
  - by destruct e.
  - by rewrite IH.
Qed.

Lemma substring_whole (e : string) : substring 0 (String.length e) e = e.
Proof. induction e as [|c e IH]; simpl; [done|by rewrite IH]. Qed.

Lemma substring_suffix (p e : string) :
  substring (String.length p) (String.length e) (p ++ e) = e.
Proof.
  induction p as [|c p IH]; simpl; [apply substring_whole|done].
Qed.

Lemma length_append (p e : string) :
  String.length (p ++ e) = String.length p + String.length e.
Proof. induction p as [|c p IH]; simpl; [done|by rewrite IH]. Qed.

Lemma TrimSuffix_append (p e : string) : TrimSuffix (p ++ e) e = p.
Proof.
  unfold TrimSuffix, HasSuffix. rewrite length_append.
  replace (String.length p + String.length e - String.length e)
    with (String.length p) by lia.
  rewrite substring_suffix, String.eqb_refl, substring_prefix.
  by rewrite (proj2 (Nat.leb_le _ _)) by lia.
Qed.

Lemma append_empty (s : string) : s = s ++ "".
Proof. induction s as [|c s IH]; [done|]. change (String c s = String c (s ++ "")). by f_equal. Qed.

Lemma Ext_is_suffix (s : string) : ∃ p, s = p ++ Ext s.
Proof.
  induction s as [|c rest [p IH]]; [by exists ""|]. simpl.
  destruct (Ext rest) as [|d e] eqn:Hext.
  - destruct (has_separator rest).
    + exists (String c rest). apply append_empty.
    + destruct (Ascii.eqb c ".").
      * by exists "".
      * exists (String c rest). apply append_empty.
  - exists (String c p). change (String c rest = String c (p ++ String d e)).
    by f_equal.
Qed.

Lemma plain_of_no_ext (s : string) :
  Ext s = "" → has_separator s = false → plain s = true.
Proof.
  induction s as [|c rest IH]; [done|]. simpl.
  intros Hext [Hc Hsep]%orb_false_elim. rewrite Hc, Hsep in *. simpl.
  destruct (Ext rest) as [|d e] eqn:Hrest; [|done].
  destruct (Ascii.eqb c "."); [done|]. simpl. by apply IH.
Qed.

(** ** [createTables] *)

(** X13. [createTables] returns no error exactly when [db.Begin], the
    three [tx.Exec] and [tx.Commit] all succeed; it has then issued these
    five calls, in this order, and no other. *)
Theorem createTables_succeeds_iff drv :
  ((createTables drv).2 = None ↔ Forall (λ c, answer drv c = None) all_calls)
  ∧ ((createTables drv).2 = None → (createTables drv).1 = all_calls).
Proof.
  unfold createTables, all_calls. rewrite !Forall_cons, Forall_nil. simpl.
  destruct (sql_Begin drv), (sql_Exec drv "files"), (sql_Exec drv "services"),
    (sql_Exec drv "nginx_config_files"), (sql_Commit drv); simpl;
    (split; [split; [first [by intros [=] | by intros _; repeat split]
                    | by intros (? & ? & ? & ? & ? & _)]
            | done]).
Qed.

(** X14. [createTables] stops at the first call that fails and returns its
    error: the calls it has issued are a beginning of the five, all but the
    last succeeded, and the result is the answer to the last. It never
    rolls back, and it commits only after all three tables were created
    without error; a failed [tx.Exec] leaves the transaction neither
    committed nor rolled back. *)
Theorem createTables_stops_at_first_failure drv calls r :
  createTables drv = (calls, r) →
  (∃ (before : list call) (c : call) (rest : list call),
     calls = (before ++ [c])%list
     ∧ all_calls = (calls ++ rest)%list
     ∧ Forall (λ c', answer drv c' = None) before
     ∧ r = answer drv c)
  ∧ (Rollback ∉ calls)
  ∧ (Commit ∈ calls →
     Forall (λ c', answer drv c' = None)
            [Begin; Exec "files"; Exec "services"; Exec "nginx_config_files"]).
Proof.
  unfold createTables, all_calls.
  destruct (sql_Begin drv) eqn:HB; [|
  destruct (sql_Exec drv "files") eqn:H1; [|
  destruct (sql_Exec drv "services") eqn:H2; [|
  destruct (sql_Exec drv "nginx_config_files") eqn:H3; [|
  destruct (sql_Commit drv) eqn:HC]]]];
    intros [= <- <-]; (split; [|split]).
  all: try (intros Hin; repeat (apply elem_of_cons in Hin as [?|Hin]; [done|]);
            by apply elem_of_nil in Hin).
  all: try (intros _; repeat constructor; done).
  - exists [], Begin, [Exec "files"; Exec "services"; Exec "nginx_config_files"; Commit].
    by repeat split.
  - exists [Begin], (Exec "files"), [Exec "services"; Exec "nginx_config_files"; Commit].
    split_and!; [done|done|by repeat constructor|done].
  - exists [Begin; Exec "files"], (Exec "services"), [Exec "nginx_config_files"; Commit].
    split_and!; [done|done|by repeat constructor|done].
  - exists [Begin; Exec "files"; Exec "services"], (Exec "nginx_config_files"), [Commit].
    split_and!; [done|done|by repeat constructor|done].
  - exists [Begin; Exec "files"; Exec "services"; Exec "nginx_config_files"], Commit, [].
    split_and!; [done|done|by repeat constructor|done].
  - exists [Begin; Exec "files"; Exec "services"; Exec "nginx_config_files"], Commit, [].
    split_and!; [done|done|by repeat constructor|done].
Qed.

(** ** Operations composed *)

Lemma updateFile_stored fs oldFile file w content :
  files (db w) !! File.ID oldFile = Some oldFile →
  unique_paths (files (db w)) →
  getFileContent fs (Path file) = (content, None) →
  (updateFile fs oldFile file).2 w =
    (set_files (<[File.ID oldFile := updated_file oldFile file content]> (files (db w)))
               ("UPDATED: " ++ Path file ++ newline) w,
     Ok tt).
Proof.
  intros Hstored Huniq Hread.
  rewrite (updateFile_read _ _ _ _ Hread). simpl.
  unfold bind, File_Update. simpl. rewrite Hstored.
  assert (path_in_use (files (db w)) (Some (File.ID oldFile)) (File.Path oldFile) = false)
    as ->; [|done].
  apply path_in_use_false. intros i f Hi Hp. f_equal. by eapply Huniq.
Qed.

(** X15. Updating a stored File twice from the same scan is, for the
    store, the same as updating it once: the second [updateFile] returns no
    error and leaves the three tables and the record behind [oldFile] as
    the first left them; it only logs its line again. *)
Theorem updateFile_twice fs oldFile file w content :
  files (db w) !! File.ID oldFile = Some oldFile →
  unique_paths (files (db w)) →
  getFileContent fs (Path file) = (content, None) →
  ∃ w1 w2 : World,
    (updateFile fs oldFile file).2 w = (w1, Ok tt)
    ∧ (updateFile fs (updateFile fs oldFile file).1 file).2 w1 = (w2, Ok tt)
    ∧ db w2 = db w1
    ∧ (updateFile fs (updateFile fs oldFile file).1 file).1
        = (updateFile fs oldFile file).1
    ∧ logged w2 = (logged w1 ++ [("UPDATED: " ++ Path file ++ newline)%string])%list.
Proof.
  intros Hstored Huniq Hread.
  pose proof (updateFile_stored _ _ _ _ _ Hstored Huniq Hread) as Hrun1.
  eexists _, _. split; [exact Hrun1|].
  assert (Hmem : (updateFile fs oldFile file).1 = updated_file oldFile file content)
    by (by rewrite (updateFile_read _ _ _ _ Hread)).
  rewrite Hmem.
  split; [apply (updateFile_stored _ _ _ _ content)|].
  - simpl. apply lookup_insert_eq.
  - eapply updateFile_unique_paths; [exact Huniq|exact Hrun1].
  - done.
  - simpl. split_and!; [|by rewrite (updateFile_read _ _ _ _ Hread)|done].
    f_equal. apply insert_insert_eq.
Qed.

(** X16. Deleting the File that a successful [addFile] has just stored
    gives back the database [addFile] started from, provided every
    reference of that database points to an existing row. *)
Theorem delete_file_undoes_addFile fs file w w' :
  referential_integrity (db w) →
  addFile fs file w = (w', Ok tt) →
  ∃ i : Z, File.Path <$> files (db w') !! i = Some (Path file)
           ∧ delete_file i (db w') = Ok (db w).
Proof.
  intros [Hsf _] Hrun.
  apply addFile_ok_inv in Hrun as (content & _ & _ & ->).
  set (i := next_rowid (files (db w))).
  assert (Hfresh : files (db w) !! i = None) by apply next_rowid_fresh.
  exists i. simpl. split; [by rewrite lookup_insert_eq|].
  unfold delete_file. simpl. rewrite lookup_insert_eq.
  destruct (decide _) as [_|Hno]; [|destruct Hno; by eexists].
  rewrite delete_files_eq, delete_services_eq. simpl.
  assert (Hkeep : ∀ j s, services (db w) !! j = Some s →
            refers_to {[i]} (Service.FileID s) = false).
  { intros j s Hj. apply not_true_is_false. rewrite refers_to_singleton.
    intros Hfid. destruct (Hsf _ _ _ Hj Hfid) as [f Hf]. congruence. }
  assert (Hnone : filter (λ kr : Z * Service.t,
                     refers_to {[i]} (Service.FileID kr.2) = true) (services (db w)) = ∅).
  { apply map_empty. intros j. apply map_lookup_filter_None. right.
    intros s Hj. simpl. rewrite (Hkeep _ _ Hj). done. }
  rewrite Hnone, dom_empty_L.
  destruct (db w) as [F S A] eqn:Hdb. simpl in *. do 2 f_equal.
  - apply map_eq. intros j. apply option_eq. intros f.
    rewrite map_lookup_filter_Some, lookup_insert_Some. simpl.
    rewrite elem_of_singleton. split.
    + intros [[[-> _]|[_ Hj]] Hne]; done.
    + intros Hj. split; [right; split; [|done]|]; congruence.
  - apply map_eq. intros j. apply option_eq. intros s.
    rewrite !map_lookup_filter_Some. simpl. split; [tauto|].
    intros Hj. split_and!; [done|by eapply Hkeep|set_solver].
  - apply map_eq. intros j. rewrite lookup_fmap.
    destruct (A !! j) as [a|]; [|done]. simpl.
    by destruct (NginxConfigFile.ServiceID a).
Qed.

(** ** The further properties at concrete inputs *)

Lemma addFile_adds_one_row_witness :
  ∃ (i : Z) (row : File.t),
    files (db Fixture.start) !! i = None
    ∧ files (db (Fixture.added "web = up")) = <[i := row]> (files (db Fixture.start))
    ∧ size (files (db (Fixture.added "web = up"))) = S (size (files (db Fixture.start)))
    ∧ File.ID row = i
    ∧ File.Path row = Fixture.sites
    ∧ File.Name row = TrimSuffix "sites.toml" (Ext "sites.toml")
    ∧ getFileContent (Fixture.disk Fixture.sites "web = up") Fixture.sites
        = (File.Content row, None)
    ∧ File.LastModified row = 10%Z
    ∧ File.IsConfigured row = false
    ∧ (∀ j g, files (db (Fixture.added "web = up")) !! j = Some g →
              File.Path g = Fixture.sites → j = i)
    ∧ services (db (Fixture.added "web = up")) = services (db Fixture.start)
    ∧ nginx_config_files (db (Fixture.added "web = up"))
        = nginx_config_files (db Fixture.start)
    ∧ logged (Fixture.added "web = up")
        = (logged Fixture.start ++ [("ADDED: " ++ Fixture.sites ++ newline)%string])%list.
Proof.
  apply (addFile_adds_one_row (Fixture.disk Fixture.sites "web = up")
           (Fixture.scan Fixture.sites 10) Fixture.start (Fixture.added "web = up")).
  reflexivity.
Defined.

Lemma failed_write_changes_nothing_witness :
  (addFile Scenario.no_disk (Fixture.scan Fixture.sites 10) (Fixture.added "web = up")).1
    = Fixture.added "web = up".
Proof.
  apply (failed_write_changes_nothing Scenario.no_disk (Fixture.stored "web = up")
           (Fixture.scan Fixture.sites 10) (Fixture.added "web = up") _
           (PathError "open" Fixture.sites)).
  left. reflexivity.
Defined.

Lemma updateFile_without_row_witness :
  (updateFile (Fixture.disk Fixture.sites "web = down") (Scenario.stranger "web = up")
              (Fixture.scan Fixture.sites 20)).2 (Fixture.added "web = up")
    = ({| db := db (Fixture.added "web = up");
          logged := (logged (Fixture.added "web = up")
                     ++ [("UPDATED: " ++ Fixture.sites ++ newline)%string])%list |},
       Ok tt)
  ∧ File.Content (updateFile (Fixture.disk Fixture.sites "web = down")
                    (Scenario.stranger "web = up") (Fixture.scan Fixture.sites 20)).1
      = "web = down"
  ∧ File.LastModified (updateFile (Fixture.disk Fixture.sites "web = down")
                         (Scenario.stranger "web = up") (Fixture.scan Fixture.sites 20)).1
      = 20%Z
  ∧ File.IsConfigured (updateFile (Fixture.disk Fixture.sites "web = down")
                         (Scenario.stranger "web = up") (Fixture.scan Fixture.sites 20)).1
      = false.
Proof.
  apply (updateFile_without_row (Fixture.disk Fixture.sites "web = down")
           (Scenario.stranger "web = up") (Fixture.scan Fixture.sites 20)
           (Fixture.added "web = up") "web = down").
  - vm_compute. reflexivity.
  - reflexivity.
Defined.

Lemma updateFile_refused_update_witness :
  (updateFile (Fixture.disk Fixture.sites "web = down") Scenario.mislabelled
              (Fixture.scan Fixture.sites 20)).2 Scenario.two_files
    = (Scenario.two_files, Err (UniqueViolation "files.path"))
  ∧ File.Content (updateFile (Fixture.disk Fixture.sites "web = down")
                    Scenario.mislabelled (Fixture.scan Fixture.sites 20)).1
      = "web = down"
  ∧ File.LastModified (updateFile (Fixture.disk Fixture.sites "web = down")
                         Scenario.mislabelled (Fixture.scan Fixture.sites 20)).1
      = 20%Z
  ∧ File.IsConfigured (updateFile (Fixture.disk Fixture.sites "web = down")
                         Scenario.mislabelled (Fixture.scan Fixture.sites 20)).1
      = false.
Proof.
  apply (updateFile_refused_update (Fixture.disk Fixture.sites "web = down")
           Scenario.mislabelled (Fixture.scan Fixture.sites 20) Scenario.two_files
           "web = down" 1 (Fixture.stored "web = up")).
  - vm_compute. eexists. reflexivity.
  - reflexivity.
  - vm_compute. reflexivity.
  - reflexivity.
  - vm_compute. discriminate.
Defined.

Lemma configureServices_without_file_row_witness :
  configureServices (codec := Fixture.codec)
    (Scenario.stranger "web = up") (Fixture.added "web = up")
    = (Fixture.added "web = up", Err ForeignKeyViolation).
Proof.
  apply (configureServices_without_file_row (codec := Fixture.codec)
           (Scenario.stranger "web = up") (Fixture.added "web = up") {[ "web" := "up" ]}).
  - vm_compute. reflexivity.
  - reflexivity.
  - vm_compute. discriminate.
Defined.

Lemma configureServices_no_definitions_witness :
  configureServices (codec := Scenario.codec) (Fixture.stored "") (Fixture.added "")
    = ({| db := db (Fixture.added "");
          logged := (logged (Fixture.added "")
                     ++ [("ADDED SERVICES FOR: " ++ Fixture.sites ++ newline)%string])%list |},
       Ok tt).
Proof.
  apply (configureServices_no_definitions (codec := Scenario.codec)
           (Fixture.stored "") (Fixture.added "")).
  reflexivity.
Defined.

Lemma configureServices_twice_duplicates_witness :
  ∃ w1 w2 : World,
    configureServices (codec := Fixture.codec)
      (Fixture.stored "a = 1, b = 2") (Fixture.added "a = 1, b = 2") = (w1, Ok tt)
    ∧ configureServices (codec := Fixture.codec) (Fixture.stored "a = 1, b = 2") w1
        = (w2, Ok tt)
    ∧ size (services (db w1))
        = size (services (db (Fixture.added "a = 1, b = 2")))
          + size ({[ "a" := "1"; "b" := "2" ]} : gmap string string)
    ∧ size (services (db w2))
        = size (services (db (Fixture.added "a = 1, b = 2")))
          + 2 * size ({[ "a" := "1"; "b" := "2" ]} : gmap string string)
    ∧ (∀ i s, services (db w1) !! i = Some s → services (db w2) !! i = Some s)
    ∧ (∀ i s, services (db w1) !! i = Some s →
              services (db (Fixture.added "a = 1, b = 2")) !! i = None →
              Service.FileID s = Some 1%Z).
Proof.
  apply (configureServices_twice_duplicates (codec := Fixture.codec)
           (Fixture.stored "a = 1, b = 2") (Fixture.added "a = 1, b = 2")
           {[ "a" := "1"; "b" := "2" ]}).
  - reflexivity.
  - vm_compute. eexists. reflexivity.
Defined.

Lemma logs_exactly_on_success_witness :
  logged (Fixture.added "web = up")
    = (logged Fixture.start
       ++ logged_on_success ("ADDED: " ++ Fixture.sites ++ newline) (Ok tt))%list.
Proof.
  apply (logs_exactly_on_success (codec := Fixture.codec)
           (Fixture.disk Fixture.sites "web = up") (Fixture.scan Fixture.sites 10)
           (Fixture.stored "web = up") (Fixture.stored "web = up")
           Fixture.start (Fixture.added "web = up") (Ok tt)).
  reflexivity.
Defined.

Lemma createTables_stops_at_first_failure_witness :
  (∃ (before : list call) (c : call) (rest : list call),
     [Begin; Exec "files"; Exec "services"] = (before ++ [c])%list
     ∧ all_calls = ([Begin; Exec "files"; Exec "services"] ++ rest)%list
     ∧ Forall (λ c', answer (Scenario.failing_at (Exec "services") Scenario.locked) c'
                     = None) before
     ∧ Some Scenario.locked
         = answer (Scenario.failing_at (Exec "services") Scenario.locked) c)
  ∧ (Rollback ∉ [Begin; Exec "files"; Exec "services"])
  ∧ (Commit ∈ [Begin; Exec "files"; Exec "services"] →
     Forall (λ c', answer (Scenario.failing_at (Exec "services") Scenario.locked) c'
                   = None)
            [Begin; Exec "files"; Exec "services"; Exec "nginx_config_files"]).
Proof.
  apply (createTables_stops_at_first_failure
           (Scenario.failing_at (Exec "services") Scenario.locked)).
  reflexivity.
Defined.

Lemma updateFile_twice_witness :
  ∃ w1 w2 : World,
    (updateFile (Fixture.disk Fixture.sites "web = down") (Fixture.stored "web = up")
                (Fixture.scan Fixture.sites 20)).2 (Fixture.added "web = up")
      = (w1, Ok tt)
    ∧ (updateFile (Fixture.disk Fixture.sites "web = down")
         (updateFile (Fixture.disk Fixture.sites "web = down") (Fixture.stored "web = up")
                     (Fixture.scan Fixture.sites 20)).1
         (Fixture.scan Fixture.sites 20)).2 w1 = (w2, Ok tt)
    ∧ db w2 = db w1
    ∧ (updateFile (Fixture.disk Fixture.sites "web = down")
         (updateFile (Fixture.disk Fixture.sites "web = down") (Fixture.stored "web = up")
                     (Fixture.scan Fixture.sites 20)).1
         (Fixture.scan Fixture.sites 20)).1
        = (updateFile (Fixture.disk Fixture.sites "web = down") (Fixture.stored "web = up")
                      (Fixture.scan Fixture.sites 20)).1
    ∧ logged w2 = (logged w1 ++ [("UPDATED: " ++ Fixture.sites ++ newline)%string])%list.
Proof.
  apply (updateFile_twice (Fixture.disk Fixture.sites "web = down")
           (Fixture.stored "web = up") (Fixture.scan Fixture.sites 20)
           (Fixture.added "web = up") "web = down").
  - vm_compute. reflexivity.
  - apply (addFile_unique_paths (Fixture.disk Fixture.sites "web = up")
             (Fixture.scan Fixture.sites 10) Fixture.start _ (Ok tt)
             unique_paths_empty).
    reflexivity.
  - reflexivity.
Defined.

Lemma delete_file_undoes_addFile_witness :
  ∃ i : Z, File.Path <$> files (db (Fixture.added "web = up")) !! i = Some Fixture.sites
           ∧ delete_file i (db (Fixture.added "web = up")) = Ok (db Fixture.start).
Proof.
  apply (delete_file_undoes_addFile (Fixture.disk Fixture.sites "web = up")
           (Fixture.scan Fixture.sites 10) Fixture.start (Fixture.added "web = up")).
  - apply consistent_empty.
  - reflexivity.
Defined.

(** * The pass over one file and the connection *)

(** ** Looking a File up by path *)





(** ** Steps 5 to 7 of the pass *)


Section PassLemmas.
Context {ServiceConfig : Type} {codec : TomlCodec ServiceConfig}.




End PassLemmas.

(** ** The claims on the pass *)

Section PassClaims.
Context {ServiceConfig : Type} {codec : TomlCodec ServiceConfig}.


End PassClaims.

(** ** Deleting on either connection *)

Lemma delete_services_on_eq fk gone d :
  delete_services_on fk gone d =
    Ok {| files := files d;
          services := filter (λ kr, kr.1 ∉ gone) (services d);
          nginx_config_files :=
            if fk
            then (λ a, if refers_to gone (NginxConfigFile.ServiceID a)
                       then null_service_id a else a) <$> nginx_config_files d
            else nginx_config_files d |}.
Proof. by destruct fk. Qed.


(** ** A deletion leaves the rest alone *)

(** X11. On either connection, deleting a File always succeeds, adds no
    row to any table and touches only what hangs on that File: the File's
    row is gone, every other File row, every Service row that does not
    refer to it and every artifact row whose service is not deleted with it
    are as before, and no artifact row is removed. *)
Theorem delete_file_on_keeps_the_rest fk d fid :
  ∃ d', delete_file_on fk fid d = Ok d'
    ∧ files d' !! fid = None
    ∧ (∀ j f, files d' !! j = Some f → files d !! j = Some f)
    ∧ (∀ j f, j ≠ fid → files d !! j = Some f → files d' !! j = Some f)
    ∧ (∀ i s, services d' !! i = Some s → services d !! i = Some s)
    ∧ (∀ i s, services d !! i = Some s → Service.FileID s ≠ Some fid →
         services d' !! i = Some s)
    ∧ dom (nginx_config_files d') = dom (nginx_config_files d)
    ∧ (∀ i a, nginx_config_files d !! i = Some a →
         (∀ sid s, NginxConfigFile.ServiceID a = Some sid →
                   services d !! sid = Some s → Service.FileID s ≠ Some fid) →
         nginx_config_files d' !! i = Some a).
Proof.
  unfold delete_file_on. destruct (decide _) as [_|Hno].
  - assert (Hfiles : ∀ (t : gmap Z File.t),
              filter (λ kr : Z * File.t, kr.1 ∉ ({[fid]} : gset Z)) t !! fid = None
              ∧ (∀ j f, filter (λ kr : Z * File.t, kr.1 ∉ ({[fid]} : gset Z)) t !! j = Some f
                        → t !! j = Some f)
              ∧ (∀ j f, j ≠ fid → t !! j = Some f →
                   filter (λ kr : Z * File.t, kr.1 ∉ ({[fid]} : gset Z)) t !! j = Some f)).
    { intros t. split_and!.
      - apply map_lookup_filter_None. right. intros f _. simpl. set_solver.
      - by intros j f [Hj _]%map_lookup_filter_Some.
      - intros j f Hj Hf. apply map_lookup_filter_Some. split; [done|]. simpl.
        set_solver. }
    destruct (Hfiles (files d)) as (Hgone & Hsub & Hkeep).
    destruct fk.
    + change (delete_files_on true {[fid]} d) with (delete_files {[fid]} d).
      rewrite delete_files_eq, delete_services_eq. eexists. split; [done|]. simpl.
      split_and!; [done..| | | |].
      * by intros i s [[Hi _]%map_lookup_filter_Some _]%map_lookup_filter_Some.
      * intros i s Hi Hfid.
        assert (Hstay : refers_to {[fid]} (Service.FileID s) = false).
        { apply not_true_is_false. by rewrite refers_to_singleton. }
        apply map_lookup_filter_Some. split.
        -- by apply map_lookup_filter_Some.
        -- simpl. rewrite elem_of_dom.
           intros [s' [Hs' Href]%map_lookup_filter_Some]. simpl in Href. congruence.
      * apply dom_fmap_L.
      * intros i a Hi Hfree. rewrite lookup_fmap, Hi. simpl.
        destruct (refers_to _ (NginxConfigFile.ServiceID a)) eqn:Href; [|done].
        exfalso. destruct (NginxConfigFile.ServiceID a) as [sid|] eqn:Hsid; [|done].
        simpl in Href. apply bool_decide_eq_true in Href.
        apply elem_of_dom in Href as [s [Hs Hhit]%map_lookup_filter_Some].
        simpl in Hhit. apply refers_to_singleton in Hhit. by apply (Hfree sid s).
    + simpl. eexists. split; [done|]. simpl. by split_and!.
  - exists d. split_and!; try done.
    destruct (files d !! fid) eqn:Hfile; [|done]. destruct Hno. by eexists.
Qed.

(** ** The name [addFile] stores *)

Lemma no_ext_no_dot (s p q : string) :
  Ext s = "" → s = (p ++ String "." q)%string → has_separator q = true.
Proof.
  revert s. induction p as [|c p IH]; intros s Hext ->; simpl in Hext.
  - destruct (Ext q); [|done]. by destruct (has_separator q).
  - apply (IH (p ++ String "." q)%string); [|done].
    change (String c p ++ String "." q)%string
      with (String c (p ++ String "." q))%string in Hext.
    simpl in Hext. by destruct (Ext (p ++ String "." q)).
Qed.

(** X12. The name [addFile] stores is the scanned name cut at the last dot
    of its last path element: the scanned name is the stored name followed
    by an extension, which is a dot followed by characters that are neither
    dots nor separators, or, when no dot of the scanned name is free of a
    later separator, is empty. *)
Theorem addFile_stores_stem fs file w w' :
  addFile fs file w = (w', Ok tt) →
  ∃ (i : Z) (row : File.t) (ext : string),
    files (db w') !! i = Some row
    ∧ File.Path row = Path file
    ∧ Name file = (File.Name row ++ ext)%string
    ∧ ((ext = "" ∧ ∀ p q, Name file = (p ++ String "." q)%string →
                          has_separator q = true)
       ∨ ∃ rest, ext = String "." rest ∧ plain rest = true).
Proof.
  intros Hrun. apply addFile_ok_inv in Hrun as (content & _ & _ & ->).
  exists (next_rowid (files (db w))), (file_row (next_rowid (files (db w))) file content),
    (Ext (Name file)).
  split; [apply lookup_insert_eq|]. split; [done|]. simpl.
  destruct (Ext_is_suffix (Name file)) as [stem Hstem].
  split.
  { rewrite Hstem at 2. rewrite TrimSuffix_append. exact Hstem. }
  clear Hstem. generalize (Name file). intros s.
  destruct (Ext s) as [|c e] eqn:Hext.
  - left. split; [done|]. intros p q. by apply no_ext_no_dot.
  - right. revert c e Hext. induction s as [|c' rest IH]; intros c e Hext; [done|].
    simpl in Hext. destruct (Ext rest) as [|d e'] eqn:Hrest.
    + destruct (has_separator rest) eqn:Hsep; [done|].
      destruct (Ascii.eqb c' ".") eqn:Hc; [|done].
      apply Ascii.eqb_eq in Hc as ->. injection Hext as <- <-.
      exists rest. split; [done|]. by apply plain_of_no_ext.
    + injection Hext as <- <-. by eapply IH.
Qed.

(** ** Consistency on either connection *)

Lemma keyed_addFile fs file w w' r :
  unique_paths (files (db w)) ∧ ids_match (db w) →
  addFile fs file w = (w', r) →
  unique_paths (files (db w')) ∧ ids_match (db w').
Proof.
  intros [Huniq (Hf & Hs & Ha)] Hrun.
  split; [by eapply addFile_unique_paths|].
  destruct r as [[]|e]; [|by rewrite (addFile_error_unchanged _ _ _ _ _ Hrun)].
  apply addFile_ok_inv in Hrun as (content & _ & _ & ->).
  unfold ids_match. simpl. split_and!; [|done..].
  intros i f [[<- <-]|[_ Hi]]%lookup_insert_Some; [done|by apply Hf].
Qed.

Lemma keyed_updateFile fs oldFile file w w' r :
  unique_paths (files (db w)) ∧ ids_match (db w) →
  (updateFile fs oldFile file).2 w = (w', r) →
  unique_paths (files (db w')) ∧ ids_match (db w').
Proof.
  intros [Huniq (Hf & Hs & Ha)] Hrun.
  split; [by eapply updateFile_unique_paths|].
  destruct r as [[]|e]; [|by rewrite (updateFile_error_unchanged _ _ _ _ _ _ Hrun)].
  apply updateFile_ok_inv in Hrun
    as (content & _ & _ & [[_ Hfiles]|[_ Hfiles]] & Hsvc & Hart);
    unfold ids_match; rewrite Hfiles, Hsvc, Hart; [done|].
  split_and!; [|done..].
  intros i f [[<- <-]|[_ Hi]]%lookup_insert_Some; [done|by apply Hf].
Qed.

Lemma keyed_delete_file_on fk id d d' :
  unique_paths (files d) ∧ ids_match d →
  delete_file_on fk id d = Ok d' →
  unique_paths (files d') ∧ ids_match d'.
Proof.
  intros [Huniq (Hf & Hs & Ha)]. unfold delete_file_on.
  destruct (decide _) as [_|_]; [|by intros [= <-]].
  assert (Hsub : ∀ j f, filter (λ kr : Z * File.t, kr.1 ∉ ({[id]} : gset Z)) (files d) !! j
                          = Some f → files d !! j = Some f)
    by (by intros j f [Hj _]%map_lookup_filter_Some).
  destruct fk.
  - change (delete_files_on true {[id]} d) with (delete_files {[id]} d).
    rewrite delete_files_eq, delete_services_eq. intros [= <-].
    unfold ids_match. simpl. split; [|split_and!].
    + intros i j f g Hi%Hsub Hj%Hsub. by apply Huniq.
    + intros i f Hi%Hsub. by apply Hf.
    + intros i s [[Hi _]%map_lookup_filter_Some _]%map_lookup_filter_Some. by apply Hs.
    + intros i a. rewrite lookup_fmap.
      destruct (nginx_config_files d !! i) as [a0|] eqn:Hi; [|done].
      intros [= <-]. destruct (refers_to _ _); simpl; by apply Ha.
  - simpl. intros [= <-]. unfold ids_match. simpl. split; [|split_and!; [|done..]].
    + intros i j f g Hi%Hsub Hj%Hsub. by apply Huniq.
    + intros i f Hi%Hsub. by apply Hf.
Qed.

Lemma keyed_delete_service_on fk id d d' :
  unique_paths (files d) ∧ ids_match d →
  delete_service_on fk id d = Ok d' →
  unique_paths (files d') ∧ ids_match d'.
Proof.
  intros [Huniq (Hf & Hs & Ha)]. unfold delete_service_on.
  destruct (decide _) as [_|_]; [|by intros [= <-]].
  rewrite delete_services_on_eq. intros [= <-].
  unfold ids_match. simpl. split; [done|]. split_and!; [done| |].
  - intros i s [Hi _]%map_lookup_filter_Some. by apply Hs.
  - destruct fk; [|done]. intros i a. rewrite lookup_fmap.
    destruct (nginx_config_files d !! i) as [a0|] eqn:Hi; [|done].
    intros [= <-]. destruct (refers_to _ _); simpl; by apply Ha.
Qed.

Section ConsistencyOn.
Context {ServiceConfig : Type} {codec : TomlCodec ServiceConfig}.

Lemma configureServices_on_enforced (file : File.t) w :
  configureServices_on true file w = configureServices file w.
Proof. reflexivity. Qed.

(** Without enforcement a turn of the loop always stores its row. *)
Lemma configure_one_unenforced (file : File.t) (entry : string * ServiceConfig) w :
  configure_one_on false file entry w =
    (put_service (next_rowid (services (db w)))
                 (service_row file (next_rowid (services (db w))) entry) w,
     Ok tt).
Proof.
  destruct entry as [key config]. unfold configure_one_on, service_row. simpl.
  destruct (toml_Encode config) as [b oerr]. simpl.
  unfold bind, Service_Insert_on. simpl. rewrite next_rowid_fresh.
  by destruct (decide (is_Some None)) as [[? ?]|_].
Qed.

Lemma for_range_unenforced (file : File.t) (entries : list (string * ServiceConfig))
    w w' r :
  for_range entries (configure_one_on false file) w = (w', r) →
  files (db w') = files (db w)
  ∧ nginx_config_files (db w') = nginx_config_files (db w)
  ∧ ∀ i s, services (db w') !! i = Some s →
           services (db w) !! i = Some s ∨ Service.ID s = i.
Proof.
  revert w. induction entries as [|entry rest IH]; intros w; simpl.
  - intros [= <- _]. by split_and!; [..|left].
  - unfold bind at 1. rewrite configure_one_unenforced.
    intros (Hfiles & Hart & Hsvc)%IH. rewrite Hfiles, Hart. split_and!; [done..|].
    intros i s [Hi|Hid]%Hsvc; [|by right]. simpl in Hi.
    apply lookup_insert_Some in Hi as [[<- <-]|[_ Hi]]; [by right|by left].
Qed.

Lemma keyed_configureServices_on fk (file : File.t) w w' r :
  unique_paths (files (db w)) ∧ ids_match (db w) →
  configureServices_on fk file w = (w', r) →
  unique_paths (files (db w')) ∧ ids_match (db w').
Proof.
  intros [Huniq (Hf & Hs & Ha)] Hrun.
  assert (files (db w') = files (db w)
          ∧ nginx_config_files (db w') = nginx_config_files (db w)
          ∧ ∀ i s, services (db w') !! i = Some s →
                   services (db w) !! i = Some s ∨ Service.ID s = i)
    as (Hfiles & Hart & Hsvc).
  { destruct fk.
    - rewrite configureServices_on_enforced in Hrun.
      pose proof (configureServices_frame _ _ _ _ Hrun) as (Hfiles & Hart & Hkeep & Hnew).
      split_and!; [done..|]. intros i s Hi.
      destruct (services (db w) !! i) as [s0|] eqn:Hold.
      + left. rewrite (Hkeep _ _ Hold) in Hi. congruence.
      + right. by destruct (Hnew _ _ Hi Hold) as [entry ->].
    - unfold configureServices_on, bind, lift in Hrun.
      destruct (toml_Decode (File.Content file)) as [configs|e];
        [|injection Hrun as <- _; by split_and!; [..|left]].
      destruct (for_range _ _ w) as [w1 r1] eqn:Hloop.
      apply for_range_unenforced in Hloop.
      assert (db w' = db w1) as ->; [|done].
      destruct r1; by injection Hrun as <- _. }
  unfold ids_match. rewrite Hfiles, Hart. split; [done|]. split_and!; [done| |done].
  intros i s [Hi|Hid]%Hsvc; [by apply Hs|done].
Qed.

Lemma consistent_on_step fk w w' :
  consistent_on fk (db w) → step_on fk w w' → consistent_on fk (db w').
Proof.
  intros (Huniq & Hids & Href) Hstep. unfold consistent_on.
  assert (Hkeyed : unique_paths (files (db w')) ∧ ids_match (db w')).
  { destruct Hstep as [fs file w w' r Hrun|fs oldFile file w w' r Hrun|file w w' r Hrun
                      |id w d' Hrun|id w d' Hrun].
    - by eapply keyed_addFile.
    - by eapply keyed_updateFile.
    - by eapply keyed_configureServices_on.
    - simpl. by eapply (keyed_delete_file_on _ id (db w)).
    - simpl. by eapply (keyed_delete_service_on _ id (db w)). }
  destruct Hkeyed as [Huniq' Hids']. split_and!; [done..|].
  intros ->. specialize (Href eq_refl).
  apply (consistent_step w w'); [done|].
  destruct Hstep as [fs file w w' r Hrun|fs oldFile file w w' r Hrun|file w w' r Hrun
                    |id w d' Hrun|id w d' Hrun].
  - by eapply step_addFile.
  - by eapply step_updateFile.
  - by eapply step_configureServices.
  - by apply (step_delete_file id).
  - by apply (step_delete_service id).
Qed.

(** X10. On any connection, every sequence of [addFile], [updateFile] and
    [configureServices] calls, with whatever arguments and outcomes, and of
    deletions of files and services keeps the paths of the files unique
    and every row stored under the id it carries. On a connection that
    enforces foreign keys it also keeps every non-null reference pointing
    to an existing row. *)
Theorem steps_keep_consistency_on fk w w' :
  consistent_on fk (db w) → rtc (step_on fk) w w' → consistent_on fk (db w').
Proof.
  intros Hcons Hsteps. induction Hsteps as [|w w1 w' Hstep _ IH]; [done|].
  apply IH. by eapply consistent_on_step.
Qed.
End ConsistencyOn.

(** ** The pass and the connection at concrete inputs *)






Lemma steps_keep_consistency_on_witness :
  consistent_on true
    (db (configureServices_on (codec := Toml.codec) true
           (File.mk 1 Toml.sites "sites" Toml.two_services false 10)
           (addFile (Toml.disk Toml.two_services) (Toml.scan 10) Toml.start).1).1).
Proof.
  apply (steps_keep_consistency_on (codec := Toml.codec) true Toml.start).
  - split; [apply unique_paths_empty|]. split; [apply consistent_empty|].
    intros _. apply consistent_empty.
  - eapply rtc_l.
    + eapply (step_on_addFile true (Toml.disk Toml.two_services) (Toml.scan 10)).
      apply surjective_pairing.
    + apply rtc_once.
      eapply (step_on_configureServices true
                (File.mk 1 Toml.sites "sites" Toml.two_services false 10)).
      apply surjective_pairing.
Defined.

(** Without enforcement [configureServices] stores the definitions of a
    File that has no row: the new Service row refers to no File. *)
Lemma unenforced_insert_dangles :
  ∃ w', configureServices_on (codec := Toml.codec) false Toml.stranger Toml.start
          = (w', Ok tt)
        ∧ Service.FileID <$> services (db w') !! 1%Z = Some (Some 7%Z)
        ∧ files (db w') !! 7%Z = None
        ∧ ¬ referential_integrity (db w').
Proof.
  eexists. split; [vm_compute; reflexivity|].
  split_and!; [vm_compute; reflexivity..|].
  intros [Hsf _].
  destruct (Hsf 1%Z (Service.mk 1 (Some 7%Z) "web" ("tls = true" ++ newline)
                                stateNotConfigured 5) 7%Z) as [f Hf];
    [vm_compute; reflexivity|reflexivity|].
  vm_compute in Hf. discriminate.
Qed.

Lemma addFile_stores_stem_witness :
  ∃ (i : Z) (row : File.t) (ext : string),
    files (db (addFile (Toml.disk Toml.two_services) (Toml.scan 10) Toml.start).1) !! i
      = Some row
    ∧ File.Path row = Toml.sites
    ∧ "sites.toml" = (File.Name row ++ ext)%string
    ∧ ((ext = "" ∧ ∀ p q, "sites.toml" = (p ++ String "." q)%string →
                          has_separator q = true)
       ∨ ∃ rest, ext = String "." rest ∧ plain rest = true).
Proof.
  apply (addFile_stores_stem (Toml.disk Toml.two_services) (Toml.scan 10) Toml.start).
  reflexivity.
Defined.
